(** * Aurora cluster scheduled stop/start: a shallow embedding

    Source: [src/scripts/aurora_cluster_scheduler.py].

    The script is a sequential Python program that talks to a remote
    service through a boto3 RDS client.  The embedding keeps the shape of
    the source:

    - Python dictionaries with string keys (cluster descriptors, API
      responses, tags, the SSM input) are [gmap string _];
    - Python exceptions are the values of [exn]; a computation either
      returns or raises, and a [try]/[except] is a match on that result;
    - the remote service is an interface [Remote W] over an abstract world
      [W]: every call takes the world and gives back a result and the next
      world, so the service may answer differently each time it is asked;
    - every remote call and every [time.sleep] is recorded, in order, in a
      log of calls carried next to the world; the log is how statements
      such as "exactly three invocation attempts" are phrased.

    Strings are byte strings.  [str.lower] is modelled on the ASCII letters;
    every literal the script compares a lowered string with is ASCII and has
    no letter k (the only ASCII letter that the lower-casing of a non-ASCII
    code point can produce), so the comparisons agree with Python's.
    Calls to [logger] are not modelled: they neither raise nor change
    control flow.  [except Exception] is modelled for the subclasses of
    [Exception], which is what the client raises. *)

From Stdlib Require Import String Ascii ZArith List Lia Permutation.
From stdpp Require Import base option list gmap strings.

Open Scope Z_scope.

(** ** Exceptions and results *)

Inductive exn : Type :=
| InvalidDBClusterStateFault (msg : string)
| KeyError (key : string)
| IndexError (msg : string)
| TypeError (msg : string)
| ValueError (msg : string)
| OtherException (cls msg : string).

Inductive result (A : Type) : Type :=
| Ok (a : A)
| Raise (e : exn).

Arguments Ok {A} a.
Arguments Raise {A} e.

(** [except rds_client.exceptions.InvalidDBClusterStateFault] selects on the
    class of the exception. *)
Definition is_invalid_state (e : exn) : bool :=
  match e with
  | InvalidDBClusterStateFault _ => true
  | _ => false
  end.

(** [repr(s)] of a string.  The quote is the single quote, unless the string
    holds a single quote and no double quote.  The backslash and the quote
    are escaped with a backslash, tab, line feed and carriage return are
    written [\t], [\n], [\r], and the other control characters (below 32,
    and 127) as [\x] and two hexadecimal digits.  Bytes from 128 on stand as
    they are, which is how Python writes a printable code point outside
    ASCII. *)
Definition single_quote : ascii := ascii_of_nat 39.
Definition double_quote : ascii := ascii_of_nat 34.
Definition backslash : ascii := ascii_of_nat 92.

Definition hex_digit (n : nat) : ascii :=
  if (n <? 10)%nat then ascii_of_nat (48 + n) else ascii_of_nat (87 + n).

Fixpoint holds (q : ascii) (s : string) : bool :=
  match s with
  | EmptyString => false
  | String c s' => Ascii.eqb c q || holds q s'
  end.

Definition repr_quote (s : string) : ascii :=
  if holds single_quote s && negb (holds double_quote s) then double_quote
  else single_quote.

Definition repr_ascii (quote c : ascii) : string :=
  let n := nat_of_ascii c in
  if Ascii.eqb c backslash || Ascii.eqb c quote then String backslash (String c EmptyString)
  else if (n =? 9)%nat then String backslash "t"
  else if (n =? 10)%nat then String backslash "n"
  else if (n =? 13)%nat then String backslash "r"
  else if (n <? 32)%nat || (n =? 127)%nat then
    String backslash
      (String "x" (String (hex_digit (n / 16)) (String (hex_digit (n mod 16)) EmptyString)))
  else String c EmptyString.

Fixpoint repr_body (quote : ascii) (s : string) : string :=
  match s with
  | EmptyString => EmptyString
  | String c s' => repr_ascii quote c +:+ repr_body quote s'
  end.

Definition repr (s : string) : string :=
  let quote := repr_quote s in
  String quote (repr_body quote s +:+ String quote EmptyString).

(** [str(exc)].  A [KeyError] carries the missing key as its one argument,
    and [str] of it is the [repr] of the key. *)
Definition str_exn (e : exn) : string :=
  match e with
  | InvalidDBClusterStateFault msg => msg
  | KeyError key => repr key
  | IndexError msg => msg
  | TypeError msg => msg
  | ValueError msg => msg
  | OtherException _ msg => msg
  end.

(** ** Strings *)

Definition lower_ascii (c : ascii) : ascii :=
  let n := nat_of_ascii c in
  if ((65 <=? n)%nat && (n <=? 90)%nat)%bool then ascii_of_nat (n + 32) else c.

(** [s.lower()] *)
Fixpoint lower (s : string) : string :=
  match s with
  | EmptyString => EmptyString
  | String c s' => String (lower_ascii c) (lower s')
  end.

(** [s.startswith((p1, p2, ...))] *)
Definition startswith (s : string) (prefixes : list string) : bool :=
  existsb (fun p => String.prefix p s) prefixes.

(** [x in (a, b, ...)] on a tuple of strings *)
Definition in_tuple (x : string) (t : list string) : bool :=
  existsb (String.eqb x) t.

(** ** Constants *)

Definition ACTION_START : string := "start".
Definition ACTION_STOP : string := "stop".

Definition STATUS_AVAILABLE : string := "available".
Definition STATUS_STOPPED : string := "stopped".
Definition STATUS_STARTING : string := "starting".
Definition STATUS_STOPPING : string := "stopping".

Definition UNSTOPPABLE_ENGINE_MODES : gset string :=
  {[ "global"; "parallelquery"; "multimaster"; "serverless" ]}.

Definition MAX_RETRIES : Z := 3.
Definition RETRY_DELAY_SECONDS : Z := 5.

(** ** Data *)

(** A cluster descriptor as the service returns it: a dictionary.  The
    script reads the keys DBClusterIdentifier, DBClusterArn, Engine,
    EngineMode and Status, and tests DBClusterInstanceClass for presence. *)
Abbreviation cluster := (gmap string string).
Abbreviation tag := (gmap string string).

(** [d.get(key, default)] *)
Definition dict_get {V : Type} (d : gmap string V) (key : string) (default : V) : V :=
  match d !! key with
  | Some v => v
  | None => default
  end.

(** [d[key]] *)
Definition dict_item {V : Type} (d : gmap string V) (key : string) : result V :=
  match d !! key with
  | Some v => Ok v
  | None => Raise (KeyError key)
  end.

(** [key in d] *)
Definition dict_contains {V : Type} (d : gmap string V) (key : string) : bool :=
  bool_decide (is_Some (d !! key)).

(** [l[0]] *)
Definition list_first {A : Type} (l : list A) : result A :=
  match l with
  | x :: _ => Ok x
  | [] => Raise (IndexError "list index out of range")
  end.

(** ** Helpers of the script that do no remote call *)

Definition is_multi_az_db_cluster (c : cluster) : bool :=
  let engine := dict_get c "Engine" EmptyString in
  let has_instance_class := dict_contains c "DBClusterInstanceClass" in
  startswith engine ["mysql"; "postgres"] && has_instance_class.

Definition is_stoppable_cluster (c : cluster) : result bool :=
  match dict_item c "DBClusterIdentifier" with
  | Raise e => Raise e
  | Ok cluster_id =>
      let engine_mode := lower (dict_get c "EngineMode" "provisioned") in
      if bool_decide (engine_mode ∈ UNSTOPPABLE_ENGINE_MODES) then Ok false
      else if is_multi_az_db_cluster c then Ok false
      else Ok true
  end.

(** ** The remote service and the log of calls *)

(** What the script can observe from outside: the calls it makes, in
    order.  [CallSleep] is [time.sleep]. *)
Inductive call : Type :=
| CallClient
| CallPaginate
| CallListTags (arn : string)
| CallDescribe (id : string)
| CallStart (id : string)
| CallStop (id : string)
| CallSleep (secs : Z).

(** The collaborators of the script over a world [W]: [boto3.client("rds")],
    the methods of the client that the script uses, and [time.sleep].  The
    iteration over [paginator.paginate()] is one operation that gives all
    pages or raises.  The script touches nothing but these, so a run is a
    function of the world it starts in. *)
Record Remote (W : Type) : Type := {
  boto3_client : W -> result unit * W;
  paginate : W -> result (list (gmap string (list cluster))) * W;
  list_tags_for_resource : string -> W -> result (gmap string (list tag)) * W;
  describe_db_clusters : string -> W -> result (gmap string (list cluster)) * W;
  start_db_cluster : string -> W -> result unit * W;
  stop_db_cluster : string -> W -> result unit * W;
  time_sleep : Z -> W -> W
}.

Arguments boto3_client {W} _ _.
Arguments paginate {W} _ _.
Arguments list_tags_for_resource {W} _ _ _.
Arguments describe_db_clusters {W} _ _ _.
Arguments start_db_cluster {W} _ _ _.
Arguments stop_db_cluster {W} _ _ _.
Arguments time_sleep {W} _ _ _.

Record state (W : Type) : Type := { world : W; calls : list call }.

Arguments world {W} _.
Arguments calls {W} _.

(** ** State and exception monad *)

Definition M (W A : Type) : Type := state W -> result A * state W.

Definition ret {W A : Type} (a : A) : M W A := fun st => (Ok a, st).

Definition raise {W A : Type} (e : exn) : M W A := fun st => (Raise e, st).

Definition bind {W A B : Type} (m : M W A) (k : A -> M W B) : M W B :=
  fun st =>
    match m st with
    | (Ok a, st1) => k a st1
    | (Raise e, st1) => (Raise e, st1)
    end.

(** A pure computation that may raise, run inside the monad. *)
Definition lift {W A : Type} (r : result A) : M W A := fun st => (r, st).

(** [try: m except Exception as exc: h exc] *)
Definition try_except {W A : Type} (m : M W A) (h : exn -> M W A) : M W A :=
  fun st =>
    match m st with
    | (Ok a, st1) => (Ok a, st1)
    | (Raise e, st1) => h e st1
    end.

Declare Scope py_scope.
Delimit Scope py_scope with py.
Notation "x <~ c ;; k" := (bind c (fun x => k))
  (at level 100, c at next level, right associativity) : py_scope.
Notation "c ;;; k" := (bind c (fun _ => k))
  (at level 100, right associativity) : py_scope.
Open Scope py_scope.

(** ** The script *)

Section Script.

Context {W : Type} (R : Remote W).

(** One remote call: run it on the world and log it. *)
Definition remote {A : Type} (c : call) (op : W -> result A * W) : M W A :=
  fun st =>
    let (r, w) := op (world st) in
    (r, {| world := w; calls := calls st ++ [c] |}).

Definition client : M W unit := remote CallClient (boto3_client R).
Definition pages : M W (list (gmap string (list cluster))) :=
  remote CallPaginate (paginate R).
Definition list_tags (arn : string) : M W (gmap string (list tag)) :=
  remote (CallListTags arn) (list_tags_for_resource R arn).
Definition describe (id : string) : M W (gmap string (list cluster)) :=
  remote (CallDescribe id) (describe_db_clusters R id).
Definition start (id : string) : M W unit :=
  remote (CallStart id) (start_db_cluster R id).
Definition stop (id : string) : M W unit :=
  remote (CallStop id) (stop_db_cluster R id).
Definition sleep (secs : Z) : M W unit :=
  remote (CallSleep secs) (fun w => (Ok tt, time_sleep R secs w)).

(** [any(tag["Key"] == tag_key for tag in tags)]: stops at the first match,
    raises at the first tag without the key before a match. *)
Fixpoint any_key_is (tags : list tag) (tag_key : string) : result bool :=
  match tags with
  | [] => Ok false
  | t :: rest =>
      match dict_item t "Key" with
      | Raise e => Raise e
      | Ok k => if String.eqb k tag_key then Ok true else any_key_is rest tag_key
      end
  end.

Definition has_schedule_tag (cluster_arn tag_key : string) : M W bool :=
  try_except
    (response <~ list_tags cluster_arn ;;
     tags <~ lift (dict_item response "TagList") ;;
     lift (any_key_is tags tag_key))
    (fun exc => ret false).

(** [response["DBClusters"][0]["Status"]] *)
Definition first_status (response : gmap string (list cluster)) : result string :=
  match dict_item response "DBClusters" with
  | Raise e => Raise e
  | Ok cs =>
      match list_first cs with
      | Raise e => Raise e
      | Ok c => dict_item c "Status"
      end
  end.

(** [range(lo, hi)] *)
Definition range (lo hi : Z) : list Z := seqZ lo (hi - lo).

(** The body of the [try] in the retry loop. *)
Definition attempt (api_call : string -> M W unit) (cluster_id : string) : M W string :=
  api_call cluster_id ;;;
  sleep 1 ;;;
  response <~ describe cluster_id ;;
  new_status <~ lift (first_status response) ;;
  ret new_status.

(** The [for attempt in range(1, MAX_RETRIES + 1)] loop and the
    [raise last_exception] after it. *)
Fixpoint retry_loop (api_call : string -> M W unit) (cluster_id : string)
    (attempts : list Z) (last_exception : option exn) : M W string :=
  match attempts with
  | [] =>
      match last_exception with
      | Some e => raise e
      | None => raise (TypeError "exceptions must derive from BaseException")
      end
  | n :: rest =>
      try_except (attempt api_call cluster_id)
        (fun exc =>
           if is_invalid_state exc then raise exc
           else
             (if n <? MAX_RETRIES then sleep RETRY_DELAY_SECONDS else ret tt) ;;;
             retry_loop api_call cluster_id rest (Some exc))
  end.

(** The operation that [perform_action_with_retry] binds to [api_call]. *)
Definition api_call (action : string) : string -> M W unit :=
  if String.eqb action ACTION_START then start else stop.

Definition perform_action_with_retry (cluster_id action : string) : M W string :=
  retry_loop (api_call action) cluster_id (range 1 (MAX_RETRIES + 1)) None.

(** The dictionary that [process_cluster] starts from. *)
Definition new_result (cluster_id : string) : gmap string string :=
  <[ "status" := EmptyString ]> (<[ "message" := EmptyString ]> (<[ "outcome" := "failed" ]>
    (<[ "cluster_id" := cluster_id ]> ∅))).

(** The guard between the status fetch and the execution, inside the [try]:
    [Some result] is a [return result], [None] falls through to the call of
    [perform_action_with_retry]. *)
Definition guard (action current_status : string) (result : gmap string string)
    : option (gmap string string) :=
  if String.eqb action ACTION_START then
    if in_tuple current_status [STATUS_AVAILABLE; STATUS_STARTING] then
      Some (<[ "message" := "Already '" +:+ current_status +:+ "' — no action needed." ]>
              (<[ "outcome" := "skipped" ]> result))
    else if negb (String.eqb current_status STATUS_STOPPED) then
      Some (<[ "message" := "Cannot start from '" +:+ current_status +:+ "' state." ]>
              (<[ "outcome" := "skipped" ]> result))
    else None
  else if String.eqb action ACTION_STOP then
    if in_tuple current_status [STATUS_STOPPED; STATUS_STOPPING] then
      Some (<[ "message" := "Already '" +:+ current_status +:+ "' — no action needed." ]>
              (<[ "outcome" := "skipped" ]> result))
    else if negb (String.eqb current_status STATUS_AVAILABLE) then
      Some (<[ "message" := "Cannot stop from '" +:+ current_status +:+ "' state." ]>
              (<[ "outcome" := "skipped" ]> result))
    else None
  else None.

(** The [except Exception as exc] of [process_cluster], on the dictionary as
    it is when the exception arrives. *)
Definition on_exception (result : gmap string string) (exc : exn) : gmap string string :=
  <[ "message" := str_exn exc ]> (<[ "outcome" := "failed" ]> result).

Definition process_cluster (cluster_id action : string) : M W (gmap string string) :=
  fun st =>
    let result := new_result cluster_id in
    match (response <~ describe cluster_id ;; lift (first_status response)) st with
    | (Raise exc, st1) => (Ok (on_exception result exc), st1)
    | (Ok current_status, st1) =>
        let result := <[ "status" := current_status ]> result in
        match guard action current_status result with
        | Some skipped => (Ok skipped, st1)
        | None =>
            match perform_action_with_retry cluster_id action st1 with
            | (Raise exc, st2) => (Ok (on_exception result exc), st2)
            | (Ok new_status, st2) =>
                (Ok (<[ "message" := "Action '" +:+ action +:+ "' initiated successfully." ]>
                       (<[ "status" := new_status ]>
                          (<[ "outcome" := "processed" ]> result))),
                 st2)
            end
        end
    end.

(** The value returned by [handler]. *)
Record report : Type := {
  ProcessedClusters : list string;
  SkippedClusters : list string;
  FailedClusters : list string
}.

(** Step 1 of [handler]: [all_clusters.extend(page["DBClusters"])] for every
    page. *)
Fixpoint extend_pages (all_clusters : list cluster)
    (ps : list (gmap string (list cluster))) : result (list cluster) :=
  match ps with
  | [] => Ok all_clusters
  | page :: rest =>
      match dict_item page "DBClusters" with
      | Raise e => Raise e
      | Ok cs => extend_pages (all_clusters ++ cs) rest
      end
  end.

Definition discover : M W (list cluster) :=
  ps <~ pages ;;
  lift (extend_pages [] ps).

(** Step 2 of [handler]: the loop that fills [eligible]. *)
Fixpoint select_eligible (tag_key : string) (all_clusters : list cluster)
    (eligible : list string) : M W (list string) :=
  match all_clusters with
  | [] => ret eligible
  | c :: rest =>
      stoppable <~ lift (is_stoppable_cluster c) ;;
      if negb stoppable then select_eligible tag_key rest eligible
      else
        arn <~ lift (dict_item c "DBClusterArn") ;;
        tagged <~ has_schedule_tag arn tag_key ;;
        if negb tagged then select_eligible tag_key rest eligible
        else
          cluster_id <~ lift (dict_item c "DBClusterIdentifier") ;;
          select_eligible tag_key rest (eligible ++ [cluster_id])
  end.

(** Step 3 of [handler]: the loop over [eligible] that fills the three
    lists.  The two items of [result] are read for the log line before the
    outcome is tested. *)
Fixpoint process_eligible (action : string) (eligible : list string)
    (processed skipped failed : list string) : M W report :=
  match eligible with
  | [] =>
      ret {| ProcessedClusters := processed;
             SkippedClusters := skipped;
             FailedClusters := failed |}
  | cluster_id :: rest =>
      result <~ process_cluster cluster_id action ;;
      outcome <~ lift (dict_item result "outcome") ;;
      lift (dict_item result "message") ;;;
      if String.eqb outcome "processed" then
        process_eligible action rest (processed ++ [cluster_id]) skipped failed
      else if String.eqb outcome "skipped" then
        process_eligible action rest processed (skipped ++ [cluster_id]) failed
      else
        process_eligible action rest processed skipped (failed ++ [cluster_id])
  end.

(** [str(event.get('Action'))] inside the f-string of the error. *)
Definition str_get (event : gmap string string) (key : string) : string :=
  match event !! key with
  | Some v => v
  | None => "None"
  end.

Definition handler (event : gmap string string) : M W report :=
  let action := lower (dict_get event "Action" EmptyString) in
  let tag_key := dict_get event "ScheduleTagKey" "Schedule" in
  if negb (in_tuple action [ACTION_START; ACTION_STOP]) then
    raise (ValueError ("Invalid Action '" +:+ str_get event "Action"
                         +:+ "'. Must be 'Start' or 'Stop'."))
  else
    client ;;;
    all_clusters <~ discover ;;
    eligible <~ select_eligible tag_key all_clusters [] ;;
    process_eligible action eligible [] [] [].

End Script.

(** ** Vocabulary for the statements *)

(** The entry that [api_call action cluster_id] leaves in the log. *)
Definition invocation (action cluster_id : string) : call :=
  if String.eqb action ACTION_START then CallStart cluster_id else CallStop cluster_id.

(** The state after [time.sleep(secs)]. *)
Definition slept {W : Type} (R : Remote W) (secs : Z) (st : state W) : state W :=
  snd (sleep R secs st).

(** [process_cluster] skips: it returns, in the state the status fetch left
    (so nothing is called after the fetch), a result whose outcome is
    "skipped" and whose status is the fetched one. *)
Definition skips {W : Type} (R : Remote W) (cluster_id action current_status : string)
    (st st1 : state W) : Prop :=
  ∃ result : gmap string string,
    process_cluster R cluster_id action st = (Ok result, st1)
    ∧ result !! "outcome" = Some "skipped"
    ∧ result !! "status" = Some current_status.

(** [process_cluster] proceeds to execution: after the fetch it runs
    [perform_action_with_retry], whose first call is the invocation of the
    action, and the outcome is "processed" or "failed" as that run returns
    or raises. *)
Definition proceeds {W : Type} (R : Remote W) (cluster_id action : string)
    (st st1 : state W) : Prop :=
  snd (process_cluster R cluster_id action st)
  = snd (perform_action_with_retry R cluster_id action st1)
  ∧ (∃ tail, calls (snd (process_cluster R cluster_id action st))
             = calls st1 ++ invocation action cluster_id :: tail)
  ∧ ∃ result : gmap string string,
      fst (process_cluster R cluster_id action st) = Ok result
      ∧ result !! "outcome"
        = Some (match fst (perform_action_with_retry R cluster_id action st1) with
                | Ok _ => "processed"
                | Raise _ => "failed"
                end).

(** A computation only ever adds to the log. *)
Definition grows {W A : Type} (m : M W A) : Prop :=
  ∀ st, ∃ tail, calls (snd (m st)) = calls st ++ tail.

(** The action that [handler] works with, and what makes it valid. *)
Definition requested_action (event : gmap string string) : string :=
  lower (dict_get event "Action" EmptyString).

Definition requested_tag_key (event : gmap string string) : string :=
  dict_get event "ScheduleTagKey" "Schedule".

Definition valid_action (action : string) : Prop :=
  action = ACTION_START ∨ action = ACTION_STOP.

(** The status fetch at the head of [process_cluster]. *)
Definition fetch {W : Type} (R : Remote W) (cluster_id : string) : M W string :=
  response <~ describe R cluster_id ;; lift (first_status response).

(** A descriptor has the two keys that [handler] reads with [cluster[...]]. *)
Definition well_formed (c : cluster) : Prop :=
  is_Some (c !! "DBClusterIdentifier") ∧ is_Some (c !! "DBClusterArn").

(** The identifiers of the discovered clusters, in order. *)
Definition identifiers (all_clusters : list cluster) : list (option string) :=
  (λ c : cluster, c !! "DBClusterIdentifier") <$> all_clusters.

(** All identifiers that a report lists. *)
Definition listed (r : report) : list string :=
  ProcessedClusters r ++ SkippedClusters r ++ FailedClusters r.

(** The list of a report that an outcome sends an identifier to. *)
Definition list_of_outcome (outcome : string) (r : report) : list string :=
  if String.eqb outcome "processed" then ProcessedClusters r
  else if String.eqb outcome "skipped" then SkippedClusters r
  else FailedClusters r.

(** The selection loop, reaching cluster [c] in state [st], turns it away:
    the filter says no, or the filter says yes and the tag gate says no. *)
Definition rejected {W : Type} (R : Remote W) (tag_key : string) (c : cluster)
    (st : state W) : Prop :=
  is_stoppable_cluster c = Ok false
  ∨ ∃ arn st1,
      is_stoppable_cluster c = Ok true
      ∧ c !! "DBClusterArn" = Some arn
      ∧ has_schedule_tag R arn tag_key st = (Ok false, st1).

(** The selection loop keeps the cluster when its turn comes in state [st]:
    it passes the filter, and the tag lookup made in [st] finds the key. *)
Definition passes {W : Type} (R : Remote W) (tag_key : string) (c : cluster)
    (st : state W) : Prop :=
  is_stoppable_cluster c = Ok true
  ∧ ∃ arn st1,
      c !! "DBClusterArn" = Some arn
      ∧ has_schedule_tag R arn tag_key st = (Ok true, st1).

(** The selection loop lets the cluster through, at some state. *)
Definition let_through {W : Type} (R : Remote W) (tag_key : string) (c : cluster) : Prop :=
  is_stoppable_cluster c = Ok true
  ∧ ∃ arn st_a st_b,
      c !! "DBClusterArn" = Some arn
      ∧ has_schedule_tag R arn tag_key st_a = (Ok true, st_b).

(** ** A scripted service, to run the script on concrete inputs

    The world is the list of answers still to be given; every call takes the
    next one.  An answer of the wrong kind, or none left, is a fault of the
    service ([OtherException]). *)

Inductive answer : Type :=
| AUnit (r : result unit)
| ATags (r : result (gmap string (list tag)))
| AClusters (r : result (gmap string (list cluster)))
| APages (r : result (list (gmap string (list cluster)))).

Definition off_script {A : Type} : result A :=
  Raise (OtherException "EndpointConnectionError" "no answer").

Definition next_unit (w : list answer) : result unit * list answer :=
  match w with
  | AUnit r :: w' => (r, w')
  | _ :: w' => (off_script, w')
  | [] => (off_script, [])
  end.

Definition next_tags (w : list answer) : result (gmap string (list tag)) * list answer :=
  match w with
  | ATags r :: w' => (r, w')
  | _ :: w' => (off_script, w')
  | [] => (off_script, [])
  end.

Definition next_clusters (w : list answer)
    : result (gmap string (list cluster)) * list answer :=
  match w with
  | AClusters r :: w' => (r, w')
  | _ :: w' => (off_script, w')
  | [] => (off_script, [])
  end.

Definition next_pages (w : list answer)
    : result (list (gmap string (list cluster))) * list answer :=
  match w with
  | APages r :: w' => (r, w')
  | _ :: w' => (off_script, w')
  | [] => (off_script, [])
  end.

Definition scripted : Remote (list answer) := {|
  boto3_client := next_unit;
  paginate := next_pages;
  list_tags_for_resource := fun _ => next_tags;
  describe_db_clusters := fun _ => next_clusters;
  start_db_cluster := fun _ => next_unit;
  stop_db_cluster := fun _ => next_unit;
  time_sleep := fun _ w => w
|}.

Definition init (w : list answer) : state (list answer) := {| world := w; calls := [] |}.

(** A describe response with one cluster in the given status. *)
Definition in_status (status : string) : answer :=
  AClusters (Ok {[ "DBClusters" := [ {[ "Status" := status ]} ] ]}).

Definition timeout_error : exn := OtherException "ReadTimeoutError" "Read timeout on endpoint".
Definition throttled : exn := OtherException "ClientError" "Throttling: rate exceeded".

(** A service on which the first invocation returns, the status read that
    follows it times out, and the second invocation and read go well. *)
Definition read_times_out_once : list answer :=
  [AUnit (Ok tt); AClusters (Raise timeout_error); AUnit (Ok tt); in_status "starting"].

(** The status read after a successful invocation as a read made once: when
    it raises, the fault is the result of [perform_action_with_retry] and
    nothing is called after it. *)
Definition confirm_read_single_shot {W : Type} (R : Remote W)
    (cluster_id action : string) (st : state W) : Prop :=
  ∀ (st1 st2 : state W) (e : exn),
    api_call R action cluster_id st = (Ok tt, st1) →
    describe R cluster_id (slept R 1 st1) = (Raise e, st2) →
    perform_action_with_retry R cluster_id action st = (Raise e, st2).

(** Descriptors used as concrete inputs. *)
Definition serverless_cluster : cluster :=
  {[ "DBClusterIdentifier" := "reports"; "DBClusterArn" := "arn:reports";
     "Engine" := "aurora-postgresql"; "EngineMode" := "Serverless" ]}.

Definition aurora_cluster : cluster :=
  {[ "DBClusterIdentifier" := "orders"; "DBClusterArn" := "arn:orders";
     "Engine" := "aurora-mysql" ]}.

Definition multi_az_cluster : cluster :=
  {[ "DBClusterIdentifier" := "ledger"; "DBClusterArn" := "arn:ledger";
     "Engine" := "postgres"; "DBClusterInstanceClass" := "db.m5d.large" ]}.

Definition untagged_cluster : cluster :=
  {[ "DBClusterIdentifier" := "batch"; "DBClusterArn" := "arn:batch";
     "Engine" := "aurora-mysql" ]}.

Definition schedule_tag : answer :=
  ATags (Ok {[ "TagList" := [ {[ "Key" := "Schedule"; "Value" := "office-hours" ]} ] ]}).

Definition no_tags : answer := ATags (Ok {[ "TagList" := [] ]}).

Definition one_page (cs : list cluster) : answer :=
  APages (Ok [ {[ "DBClusters" := cs ]} ]).

(** Three clusters discovered: one serverless, one tagged and available,
    one without the tag.  The stop of the tagged one goes well. *)
Definition three_clusters : list answer :=
  [AUnit (Ok tt); one_page [serverless_cluster; aurora_cluster; untagged_cluster];
   schedule_tag; no_tags;
   in_status "available"; AUnit (Ok tt); in_status "stopping"].

(** Two tagged clusters: the status fetch of the first one times out, the
    second one is stopped. *)
Definition first_fetch_fails : list answer :=
  [AUnit (Ok tt); one_page [aurora_cluster; untagged_cluster];
   schedule_tag; schedule_tag;
   AClusters (Raise timeout_error);
   in_status "available"; AUnit (Ok tt); in_status "stopping"].

Definition stop_event : gmap string string := {[ "Action" := "Stop" ]}.
Definition pause_event : gmap string string := {[ "Action" := "pause" ]}.

(** ** Vocabulary for the logs *)

Definition is_invocation (c : call) : bool :=
  match c with
  | CallStart _ | CallStop _ => true
  | _ => false
  end.

(** The number of start/stop invocations in a log. *)
Fixpoint invocations (l : list call) : nat :=
  match l with
  | [] => 0%nat
  | c :: l' => ((if is_invocation c then 1 else 0) + invocations l')%nat
  end.

(** The seconds slept in a log. *)
Fixpoint sleep_seconds (l : list call) : Z :=
  match l with
  | [] => 0
  | CallSleep secs :: l' => secs + sleep_seconds l'
  | _ :: l' => sleep_seconds l'
  end.

(** What one attempt of the retry loop can leave in the log: the invocation
    alone, or the invocation, the pause and the status read. *)
Definition attempt_log (action cluster_id : string) (t : list call) : Prop :=
  t = [invocation action cluster_id]
  ∨ t = [invocation action cluster_id; CallSleep 1; CallDescribe cluster_id].

(** One, two or three attempts with the retry delay between them. *)
Definition retry_log (action cluster_id : string) (t : list call) : Prop :=
  ∃ t1 t2 t3,
    attempt_log action cluster_id t1
    ∧ attempt_log action cluster_id t2
    ∧ attempt_log action cluster_id t3
    ∧ (t = t1
       ∨ t = t1 ++ CallSleep 5 :: t2
       ∨ t = t1 ++ CallSleep 5 :: t2 ++ CallSleep 5 :: t3).

(** A computation adds to the log only calls that satisfy [P]. *)
Definition adds {W A : Type} (P : call → Prop) (m : M W A) : Prop :=
  ∀ st, ∃ tail, calls (snd (m st)) = calls st ++ tail ∧ Forall P tail.

(** A call of a run for [action] over the identifiers [ids]: a start or stop
    is the operation that [api_call action] selects, on one of [ids]. *)
Definition touches (action : string) (ids : list string) (c : call) : Prop :=
  match c with
  | CallStart cluster_id | CallStop cluster_id =>
      c = invocation action cluster_id ∧ cluster_id ∈ ids
  | _ => True
  end.

(** A call that reads and changes no cluster: client creation, discovery, a
    tag lookup. *)
Definition harmless (c : call) : Prop :=
  c = CallClient ∨ c = CallPaginate ∨ ∃ arn, c = CallListTags arn.

(** The tag lookups of the selection loop: one for each cluster that passes
    the filter, in order. *)
Fixpoint tag_lookups (all_clusters : list cluster) : list call :=
  match all_clusters with
  | [] => []
  | c :: rest =>
      match is_stoppable_cluster c, c !! "DBClusterArn" with
      | Ok true, Some arn => CallListTags arn :: tag_lookups rest
      | _, _ => tag_lookups rest
      end
  end.

Definition empty_report : report :=
  {| ProcessedClusters := []; SkippedClusters := []; FailedClusters := [] |}.

(** More concrete inputs. *)
Definition access_denied : exn := OtherException "ClientError" "AccessDenied".

Definition retry_then_success : list answer :=
  [AUnit (Raise throttled); AUnit (Ok tt); in_status "starting"].

Definition lost_race_on_retry : list answer :=
  [AUnit (Raise timeout_error);
   AUnit (Raise (InvalidDBClusterStateFault "cluster is not stopped")); AUnit (Ok tt)].

Definition nameless_cluster : cluster :=
  {[ "DBClusterArn" := "arn:nameless"; "Engine" := "aurora-mysql" ]}.

(** Tag lists with a tag that has no Key after, and before, the opt-in tag. *)
Definition orphan_after : gmap string (list tag) :=
  {[ "TagList" := [ {[ "Key" := "Owner" ]}; {[ "Key" := "Schedule" ]};
                    {[ "Value" := "orphan" ]} ] ]}.

Definition orphan_before : gmap string (list tag) :=
  {[ "TagList" := [ {[ "Key" := "Owner" ]}; {[ "Value" := "orphan" ]};
                    {[ "Key" := "Schedule" ]} ] ]}.

(** Runs that end early. *)
Definition no_survivors : list answer :=
  [AUnit (Ok tt); one_page [serverless_cluster; untagged_cluster]; no_tags;
   in_status "available"].

Definition nameless_in_inventory : list answer :=
  [AUnit (Ok tt); one_page [aurora_cluster; nameless_cluster]; schedule_tag;
   in_status "available"; AUnit (Ok tt)].

Definition discovery_denied : list answer :=
  [AUnit (Ok tt); APages (Raise access_denied); schedule_tag].

Definition two_pages : list (gmap string (list cluster)) :=
  [ {[ "DBClusters" := [serverless_cluster] ]};
    {[ "DBClusters" := [aurora_cluster; untagged_cluster] ]} ].

(** A service on which every stop returns and every status read after it
    fails, each time with another fault. *)
Definition read_never_answers : list answer :=
  [AUnit (Ok tt); AClusters (Raise timeout_error);
   AUnit (Ok tt); AClusters (Raise throttled);
   AUnit (Ok tt); AClusters (Raise access_denied); AUnit (Ok tt)].

(** * Properties *)

(** ** Eligibility filter *)

Lemma unstoppable_engine_modes (m : string) :
  m ∈ UNSTOPPABLE_ENGINE_MODES ↔
  m = "global" ∨ m = "parallelquery" ∨ m = "multimaster" ∨ m = "serverless".
Proof.
  unfold UNSTOPPABLE_ENGINE_MODES.
  rewrite !elem_of_union, !elem_of_singleton. tauto.
Qed.

Lemma provisioned_is_stoppable_mode : "provisioned" ∉ UNSTOPPABLE_ENGINE_MODES.
Proof. rewrite unstoppable_engine_modes. intros [H|[H|[H|H]]]; discriminate H. Qed.

Example lower_mixed_case : lower "ParallelQuery" = "parallelquery".
Proof. reflexivity. Qed.

(** C2. With the identifier present, [is_stoppable_cluster] lowers the engine
    mode, taking "provisioned" when the key EngineMode is absent, and returns
    [False] whenever the lowered mode is one of global, parallelquery,
    multimaster, serverless, whatever the letter case of the mode in the
    descriptor; when the key is absent the mode test does not reject, and the
    answer is the one of the Multi-AZ test alone. *)
Theorem is_stoppable_cluster_engine_mode (c : cluster) (cluster_id : string)
    (Hid : c !! "DBClusterIdentifier" = Some cluster_id) :
  (lower (dict_get c "EngineMode" "provisioned") ∈ UNSTOPPABLE_ENGINE_MODES →
   is_stoppable_cluster c = Ok false)
  ∧ (∀ mode : string,
       c !! "EngineMode" = Some mode →
       lower mode = "global" ∨ lower mode = "parallelquery"
       ∨ lower mode = "multimaster" ∨ lower mode = "serverless" →
       is_stoppable_cluster c = Ok false)
  ∧ (c !! "EngineMode" = None →
     lower (dict_get c "EngineMode" "provisioned") = "provisioned"
     ∧ is_stoppable_cluster c = Ok (negb (is_multi_az_db_cluster c))).
Proof.
  unfold is_stoppable_cluster, dict_item, dict_get. rewrite Hid.
  split; [| split].
  - intros Hin. by rewrite bool_decide_eq_true_2.
  - intros mode Hmode Hcases. rewrite Hmode.
    apply unstoppable_engine_modes in Hcases.
    by rewrite bool_decide_eq_true_2.
  - intros Hnone. rewrite Hnone. split; [reflexivity |].
    rewrite bool_decide_eq_false_2 by exact provisioned_is_stoppable_mode.
    by destruct (is_multi_az_db_cluster c).
Qed.

Lemma is_stoppable_cluster_engine_mode_witness :
  is_stoppable_cluster serverless_cluster = Ok false
  ∧ is_stoppable_cluster aurora_cluster = Ok true.
Proof.
  split.
  - refine (proj1 (proj2 (is_stoppable_cluster_engine_mode
                            serverless_cluster "reports" _)) "Serverless" _ _).
    + reflexivity.
    + reflexivity.
    + right; right; right; reflexivity.
  - refine (proj2 (proj2 (proj2 (is_stoppable_cluster_engine_mode
                                   aurora_cluster "orders" _)) _)).
    + reflexivity.
    + reflexivity.
Defined.

(** C3. With the identifier present, a descriptor whose engine name begins
    with "mysql" or "postgres" and which has the key DBClusterInstanceClass
    is not stoppable, and stays so when its engine mode is set to any value
    or removed. *)
Theorem is_stoppable_cluster_multi_az (c : cluster) (cluster_id engine rest : string)
    (Hid : c !! "DBClusterIdentifier" = Some cluster_id)
    (Hengine : c !! "Engine" = Some engine)
    (Hprefix : engine = "mysql" +:+ rest ∨ engine = "postgres" +:+ rest)
    (Hmarker : is_Some (c !! "DBClusterInstanceClass")) :
  is_multi_az_db_cluster c = true
  ∧ is_stoppable_cluster c = Ok false
  ∧ (∀ mode : string, is_stoppable_cluster (<[ "EngineMode" := mode ]> c) = Ok false)
  ∧ is_stoppable_cluster (delete "EngineMode" c) = Ok false.
Proof.
  assert (Hany : ∀ c' : cluster,
             c' !! "DBClusterIdentifier" = Some cluster_id →
             c' !! "Engine" = Some engine →
             is_Some (c' !! "DBClusterInstanceClass") →
             is_multi_az_db_cluster c' = true ∧ is_stoppable_cluster c' = Ok false).
  { intros c' Hid' Hengine' Hmarker'.
    assert (Hmaz : is_multi_az_db_cluster c' = true).
    { unfold is_multi_az_db_cluster, dict_get, dict_contains, startswith.
      rewrite Hengine', (bool_decide_eq_true_2 _ Hmarker').
      destruct Hprefix as [-> | ->]; by destruct rest. }
    split; [exact Hmaz |].
    unfold is_stoppable_cluster, dict_item. rewrite Hid', Hmaz.
    by case_bool_decide. }
  split; [by apply Hany |]. split; [by apply Hany |]. split.
  - intros mode. apply Hany; by rewrite lookup_insert_ne.
  - apply Hany; by rewrite lookup_delete_ne.
Qed.

Lemma is_stoppable_cluster_multi_az_witness :
  is_stoppable_cluster multi_az_cluster = Ok false
  ∧ is_stoppable_cluster (<[ "EngineMode" := "provisioned" ]> multi_az_cluster) = Ok false.
Proof.
  pose proof (is_stoppable_cluster_multi_az multi_az_cluster "ledger" "postgres" EmptyString
                eq_refl eq_refl (or_intror eq_refl) (ex_intro _ "db.m5d.large" eq_refl))
    as (_ & H1 & H2 & _).
  exact (conj H1 (H2 "provisioned")).
Defined.

(** ** Tag gate *)

Lemma any_key_is_total (tags : list tag) (tag_key : string) :
  Forall (λ t : tag, is_Some (t !! "Key")) tags →
  ∃ b, any_key_is tags tag_key = Ok b
       ∧ (b = true ↔ ∃ t : tag, t ∈ tags ∧ t !! "Key" = Some tag_key).
Proof.
  induction 1 as [| t rest [k Hk] _ (b & Hb & IH)]; simpl.
  - exists false. split; [done |]. split; [done |].
    intros (t & Hin & _). by apply elem_of_nil in Hin.
  - unfold dict_item. rewrite Hk.
    destruct (String.eqb_spec k tag_key) as [-> | Hne].
    + exists true. split; [done |]. split; [| done].
      intros _. exists t. split; [apply list_elem_of_here | done].
    + exists b. split; [done |]. rewrite IH. split.
      * intros (t' & Hin & Hk'). exists t'. split; [by apply list_elem_of_further | done].
      * intros (t' & Hin & Hk'). apply elem_of_cons in Hin as [-> | Hin].
        -- congruence.
        -- by exists t'.
Qed.

(** C4. [has_schedule_tag] makes one tag lookup and always returns a boolean,
    never an exception.  When the lookup raises, or the response has no
    TagList, the boolean is [False].  When the lookup gives a tag list whose
    tags all have a key, the boolean is [True] exactly when one of the tags
    has the given key; the values of the tags play no part. *)
Theorem has_schedule_tag_spec {W : Type} (R : Remote W)
    (cluster_arn tag_key : string) (st : state W) :
  ∃ b : bool,
    has_schedule_tag R cluster_arn tag_key st
    = (Ok b, {| world := snd (list_tags_for_resource R cluster_arn (world st));
                calls := calls st ++ [CallListTags cluster_arn] |})
    ∧ (∀ e, fst (list_tags_for_resource R cluster_arn (world st)) = Raise e → b = false)
    ∧ (∀ response,
         fst (list_tags_for_resource R cluster_arn (world st)) = Ok response →
         response !! "TagList" = None → b = false)
    ∧ (∀ response tags,
         fst (list_tags_for_resource R cluster_arn (world st)) = Ok response →
         response !! "TagList" = Some tags →
         Forall (λ t : tag, is_Some (t !! "Key")) tags →
         (b = true ↔ ∃ t : tag, t ∈ tags ∧ t !! "Key" = Some tag_key)).
Proof.
  unfold has_schedule_tag, try_except, bind, list_tags, remote, lift, ret, dict_item.
  destruct (list_tags_for_resource R cluster_arn (world st)) as [[response | e] w]; simpl.
  - destruct (response !! "TagList") as [tags |] eqn:Htags.
    + destruct (any_key_is tags tag_key) as [b | e] eqn:Hany;
        [exists b | exists false];
        (split; [done |]); (split; [done |]);
        (split; [intros ? [= <-] ?; congruence |]);
        intros ? ? [= <-] Htags' Hwf;
        rewrite Htags in Htags'; injection Htags' as <-;
        destruct (any_key_is_total tags tag_key Hwf) as (b' & Hb' & Hiff);
        congruence.
    + exists false. split; [done |]. split; [done |]. split; [done |].
      intros ? ? [= <-] ?. congruence.
  - exists false. split; [done |]. split; [done |]. split; done.
Qed.

Example has_schedule_tag_present :
  fst (has_schedule_tag scripted "arn:orders" "Schedule"
         (init [ATags (Ok {[ "TagList" := [ {[ "Key" := "Owner"; "Value" := "x" ]};
                                            {[ "Key" := "Schedule"; "Value" := "on" ]} ] ]})]))
  = Ok true.
Proof. reflexivity. Qed.

Example has_schedule_tag_lookup_fails :
  has_schedule_tag scripted "arn:orders" "Schedule"
    (init [ATags (Raise (OtherException "ClientError" "AccessDenied"))])
  = (Ok false, {| world := []; calls := [CallListTags "arn:orders"] |}).
Proof. reflexivity. Qed.

(** ** Retrying executor *)

(** Close an equation between logs with the equations of the context. *)
Ltac log_eq :=
  cbn [snd fst];
  repeat match goal with
         | H : calls _ = _ |- _ => rewrite H; clear H
         end;
  simpl; rewrite <- ?app_assoc; reflexivity.

Section RetryFacts.

Context {W : Type} (R : Remote W).

Lemma remote_calls {A : Type} (c : call) (op : W -> result A * W) (st : state W) :
  calls (snd (remote c op st)) = calls st ++ [c].
Proof. unfold remote. by destruct (op (world st)). Qed.

Lemma api_call_calls (action cluster_id : string) (st : state W) :
  calls (snd (api_call R action cluster_id st)) = calls st ++ [invocation action cluster_id].
Proof.
  unfold api_call, invocation.
  destruct (String.eqb action ACTION_START); apply remote_calls.
Qed.

Lemma slept_calls (secs : Z) (st : state W) :
  calls (slept R secs st) = calls st ++ [CallSleep secs].
Proof. apply remote_calls. Qed.

Lemma sleep_run (secs : Z) (st : state W) : sleep R secs st = (Ok tt, slept R secs st).
Proof. reflexivity. Qed.

Lemma range_attempts : range 1 (MAX_RETRIES + 1) = [1; 2; 3].
Proof. reflexivity. Qed.

(** The three ways one turn of the loop can go. *)
Lemma retry_loop_returns api cluster_id n rest last st new_status st1 :
  attempt R api cluster_id st = (Ok new_status, st1) →
  retry_loop R api cluster_id (n :: rest) last st = (Ok new_status, st1).
Proof. intros H. simpl. unfold try_except. by rewrite H. Qed.

Lemma retry_loop_reraises api cluster_id n rest last st e st1 :
  attempt R api cluster_id st = (Raise e, st1) →
  is_invalid_state e = true →
  retry_loop R api cluster_id (n :: rest) last st = (Raise e, st1).
Proof. intros H He. simpl. unfold try_except. by rewrite H, He. Qed.

Lemma retry_loop_continues api cluster_id n rest last st e st1 :
  attempt R api cluster_id st = (Raise e, st1) →
  is_invalid_state e = false →
  retry_loop R api cluster_id (n :: rest) last st
  = retry_loop R api cluster_id rest (Some e)
      (if n <? MAX_RETRIES then slept R RETRY_DELAY_SECONDS st1 else st1).
Proof.
  intros H He. simpl. unfold try_except. rewrite H, He. unfold bind.
  by destruct (n <? MAX_RETRIES).
Qed.

(** An attempt whose invocation raises stops there. *)
Lemma attempt_invocation_raises api cluster_id st e st1 :
  api cluster_id st = (Raise e, st1) →
  attempt R api cluster_id st = (Raise e, st1).
Proof. intros H. unfold attempt, bind. by rewrite H. Qed.

(** An attempt whose invocation returns and whose status read raises. *)
Lemma attempt_read_raises api cluster_id st st1 e st2 :
  api cluster_id st = (Ok tt, st1) →
  describe R cluster_id (slept R 1 st1) = (Raise e, st2) →
  attempt R api cluster_id st = (Raise e, st2).
Proof. intros H1 H2. unfold attempt, bind. by rewrite H1, sleep_run, H2. Qed.

(** The log only grows, and an attempt starts with the invocation. *)
Lemma attempt_first_call action cluster_id st :
  ∃ tail, calls (snd (attempt R (api_call R action) cluster_id st))
          = calls st ++ invocation action cluster_id :: tail.
Proof.
  unfold attempt, bind.
  pose proof (api_call_calls action cluster_id st) as Hc.
  destruct (api_call R action cluster_id st) as [[[] | e] st1]; simpl in Hc.
  - rewrite sleep_run.
    pose proof (remote_calls (CallDescribe cluster_id)
                  (describe_db_clusters R cluster_id) (slept R 1 st1)) as Hd.
    fold (describe R cluster_id) in Hd.
    destruct (describe R cluster_id (slept R 1 st1)) as [[response | e] st2];
      simpl in Hd.
    + unfold lift, ret. exists [CallSleep 1; CallDescribe cluster_id].
      destruct (first_status response); log_eq.
    + exists [CallSleep 1; CallDescribe cluster_id]. log_eq.
  - exists []. log_eq.
Qed.

Lemma retry_loop_first_call action cluster_id n rest last st :
  ∃ tail, calls (snd (retry_loop R (api_call R action) cluster_id (n :: rest) last st))
          = calls st ++ invocation action cluster_id :: tail.
Proof.
  revert n last st. induction rest as [| m rest IH]; intros n last st;
    destruct (attempt_first_call action cluster_id st) as [t Ht];
    destruct (attempt R (api_call R action) cluster_id st) as [[s | e] st1] eqn:Ha;
    simpl in Ht.
  - rewrite (retry_loop_returns _ _ _ _ _ _ _ _ Ha). by exists t.
  - destruct (is_invalid_state e) eqn:He.
    + rewrite (retry_loop_reraises _ _ _ _ _ _ _ _ Ha He). by exists t.
    + rewrite (retry_loop_continues _ _ _ _ _ _ _ _ Ha He). simpl.
      destruct (n <? MAX_RETRIES).
      * exists (t ++ [CallSleep RETRY_DELAY_SECONDS]).
        pose proof (slept_calls RETRY_DELAY_SECONDS st1). log_eq.
      * by exists t.
  - rewrite (retry_loop_returns _ _ _ _ _ _ _ _ Ha). by exists t.
  - destruct (is_invalid_state e) eqn:He.
    + rewrite (retry_loop_reraises _ _ _ _ _ _ _ _ Ha He). by exists t.
    + rewrite (retry_loop_continues _ _ _ _ _ _ _ _ Ha He).
      destruct (n <? MAX_RETRIES).
      * destruct (IH m (Some e) (slept R RETRY_DELAY_SECONDS st1)) as [t' Ht'].
        exists (t ++ CallSleep RETRY_DELAY_SECONDS :: invocation action cluster_id :: t').
        pose proof (slept_calls RETRY_DELAY_SECONDS st1). log_eq.
      * destruct (IH m (Some e) st1) as [t' Ht'].
        exists (t ++ invocation action cluster_id :: t'). log_eq.
Qed.

Lemma perform_first_call action cluster_id st :
  ∃ tail, calls (snd (perform_action_with_retry R cluster_id action st))
          = calls st ++ invocation action cluster_id :: tail.
Proof.
  unfold perform_action_with_retry. rewrite range_attempts.
  apply retry_loop_first_call.
Qed.

(** The loop over the three attempts, turn by turn. *)
Lemma perform_unrolled cluster_id action st :
  let api := api_call R action in
  perform_action_with_retry R cluster_id action st
  = match attempt R api cluster_id st with
    | (Ok s, st1) => (Ok s, st1)
    | (Raise e1, st1) =>
        if is_invalid_state e1 then (Raise e1, st1)
        else
          match attempt R api cluster_id (slept R 5 st1) with
          | (Ok s, st2) => (Ok s, st2)
          | (Raise e2, st2) =>
              if is_invalid_state e2 then (Raise e2, st2)
              else
                match attempt R api cluster_id (slept R 5 st2) with
                | (Ok s, st3) => (Ok s, st3)
                | (Raise e3, st3) => (Raise e3, st3)
                end
          end
    end.
Proof.
  cbv zeta. unfold perform_action_with_retry. rewrite range_attempts.
  destruct (attempt R (api_call R action) cluster_id st) as [[s | e1] st1] eqn:H1.
  { by apply retry_loop_returns. }
  destruct (is_invalid_state e1) eqn:He1.
  { by apply retry_loop_reraises. }
  rewrite (retry_loop_continues _ _ 1 _ _ _ _ _ H1 He1).
  change (if 1 <? MAX_RETRIES then slept R RETRY_DELAY_SECONDS st1 else st1)
    with (slept R 5 st1).
  destruct (attempt R (api_call R action) cluster_id (slept R 5 st1))
    as [[s | e2] st2] eqn:H2.
  { by apply retry_loop_returns. }
  destruct (is_invalid_state e2) eqn:He2.
  { by apply retry_loop_reraises. }
  rewrite (retry_loop_continues _ _ 2 _ _ _ _ _ H2 He2).
  change (if 2 <? MAX_RETRIES then slept R RETRY_DELAY_SECONDS st2 else st2)
    with (slept R 5 st2).
  destruct (attempt R (api_call R action) cluster_id (slept R 5 st2))
    as [[s | e3] st3] eqn:H3.
  { by apply retry_loop_returns. }
  destruct (is_invalid_state e3) eqn:He3.
  { by apply retry_loop_reraises. }
  by rewrite (retry_loop_continues _ _ 3 _ _ _ _ _ H3 He3).
Qed.

End RetryFacts.

(** C5. When the start/stop invocation raises [InvalidDBClusterStateFault],
    [perform_action_with_retry] raises that same fault in the state the
    invocation left: the log has grown by the one invocation and nothing
    else, so there is no second attempt and no delay. *)
Theorem invalid_state_fault_not_retried {W : Type} (R : Remote W)
    (cluster_id action msg : string) (st st1 : state W)
    (Hfault : api_call R action cluster_id st
              = (Raise (InvalidDBClusterStateFault msg), st1)) :
  perform_action_with_retry R cluster_id action st
  = (Raise (InvalidDBClusterStateFault msg), st1)
  ∧ calls st1 = calls st ++ [invocation action cluster_id].
Proof.
  split.
  - unfold perform_action_with_retry. rewrite range_attempts.
    apply retry_loop_reraises; [| reflexivity].
    by apply attempt_invocation_raises.
  - pose proof (api_call_calls R action cluster_id st) as Hc.
    by rewrite Hfault in Hc.
Qed.

Lemma invalid_state_fault_not_retried_witness :
  perform_action_with_retry scripted "orders" "stop"
    (init [AUnit (Raise (InvalidDBClusterStateFault "cluster is not available"));
           AUnit (Ok tt); in_status "stopping"])
  = (Raise (InvalidDBClusterStateFault "cluster is not available"),
     {| world := [AUnit (Ok tt); in_status "stopping"];
        calls := [CallStop "orders"] |}).
Proof.
  apply (invalid_state_fault_not_retried scripted "orders" "stop").
  reflexivity.
Defined.

(** C6. When the invocation raises a fault other than
    [InvalidDBClusterStateFault] on the first attempt, again after the delay
    that follows, and once more after the second delay,
    [perform_action_with_retry] raises the fault of the third invocation;
    the log has grown by three invocations with a sleep of 5 between
    consecutive ones and none after the last. *)
Theorem transient_faults_exhaust_three_attempts {W : Type} (R : Remote W)
    (cluster_id action : string) (st st1 st2 st3 : state W) (e1 e2 e3 : exn)
    (Hfirst : api_call R action cluster_id st = (Raise e1, st1))
    (Htransient1 : is_invalid_state e1 = false)
    (Hsecond : api_call R action cluster_id (slept R 5 st1) = (Raise e2, st2))
    (Htransient2 : is_invalid_state e2 = false)
    (Hthird : api_call R action cluster_id (slept R 5 st2) = (Raise e3, st3))
    (Htransient3 : is_invalid_state e3 = false) :
  perform_action_with_retry R cluster_id action st = (Raise e3, st3)
  ∧ calls st3
    = calls st ++ [invocation action cluster_id; CallSleep 5;
                   invocation action cluster_id; CallSleep 5;
                   invocation action cluster_id].
Proof.
  split.
  - unfold perform_action_with_retry. rewrite range_attempts.
    rewrite (retry_loop_continues R _ _ 1 _ _ _ _ _
               (attempt_invocation_raises R _ _ _ _ _ Hfirst) Htransient1).
    change (if 1 <? MAX_RETRIES then slept R RETRY_DELAY_SECONDS st1 else st1)
      with (slept R 5 st1).
    rewrite (retry_loop_continues R _ _ 2 _ _ _ _ _
               (attempt_invocation_raises R _ _ _ _ _ Hsecond) Htransient2).
    change (if 2 <? MAX_RETRIES then slept R RETRY_DELAY_SECONDS st2 else st2)
      with (slept R 5 st2).
    rewrite (retry_loop_continues R _ _ 3 _ _ _ _ _
               (attempt_invocation_raises R _ _ _ _ _ Hthird) Htransient3).
    reflexivity.
  - pose proof (api_call_calls R action cluster_id st) as H1.
    pose proof (api_call_calls R action cluster_id (slept R 5 st1)) as H2.
    pose proof (api_call_calls R action cluster_id (slept R 5 st2)) as H3.
    rewrite Hfirst in H1. rewrite Hsecond, slept_calls in H2.
    rewrite Hthird, slept_calls in H3. simpl in H1, H2, H3.
    rewrite H3, H2, H1, <- !app_assoc. reflexivity.
Qed.

Lemma transient_faults_exhaust_three_attempts_witness :
  perform_action_with_retry scripted "orders" "start"
    (init [AUnit (Raise timeout_error); AUnit (Raise timeout_error);
           AUnit (Raise throttled); AUnit (Ok tt)])
  = (Raise throttled,
     {| world := [AUnit (Ok tt)];
        calls := [CallStart "orders"; CallSleep 5; CallStart "orders"; CallSleep 5;
                  CallStart "orders"] |}).
Proof.
  refine (proj1 (transient_faults_exhaust_three_attempts scripted "orders" "start"
                   _ _ _ _ timeout_error timeout_error throttled _ _ _ _ _ _));
    reflexivity.
Defined.

(** C7, as the code has it.  The status read sits inside the [try] of the
    retry loop, so a read that raises after a returned invocation is a failed
    attempt like any other: in every state the attempt ends with the fault of
    the read after one invocation, one sleep of 1 and one read, and the loop
    goes through its three turns on the results of the attempts alone.
    - First attempt: an [InvalidDBClusterStateFault] from the read is raised
      at once; any other fault is followed by the sleep of 5 and a second
      invocation.
    - Second attempt (after a first attempt that failed with a fault other
      than [InvalidDBClusterStateFault]): the same; after the sleep of 5 the
      result of the run is that of the third attempt.
    - Third attempt: the fault of the read is raised, whatever its class,
      and nothing is called after it. *)
Theorem confirm_read_fault_is_retried {W : Type} (R : Remote W)
    (cluster_id action : string) (st st1 st2 : state W) (e : exn)
    (Hinvoked : api_call R action cluster_id st = (Ok tt, st1))
    (Hread : describe R cluster_id (slept R 1 st1) = (Raise e, st2)) :
  attempt R (api_call R action) cluster_id st = (Raise e, st2)
  ∧ calls st2
    = calls st ++ [invocation action cluster_id; CallSleep 1; CallDescribe cluster_id]
  ∧ (is_invalid_state e = true →
     perform_action_with_retry R cluster_id action st = (Raise e, st2))
  ∧ (is_invalid_state e = false →
     perform_action_with_retry R cluster_id action st
     = retry_loop R (api_call R action) cluster_id [2; 3] (Some e) (slept R 5 st2)
     ∧ ∃ tail,
         calls (snd (perform_action_with_retry R cluster_id action st))
         = calls st2 ++ CallSleep 5 :: invocation action cluster_id :: tail)
  ∧ (is_invalid_state e = false →
     ∀ last, retry_loop R (api_call R action) cluster_id [MAX_RETRIES] last st
             = (Raise e, st2))
  (* a returned invocation and a failing read make a failed attempt, in
     every state *)
  ∧ (∀ s s1 s2 e',
       api_call R action cluster_id s = (Ok tt, s1) →
       describe R cluster_id (slept R 1 s1) = (Raise e', s2) →
       attempt R (api_call R action) cluster_id s = (Raise e', s2)
       ∧ calls s2 = calls s ++ [invocation action cluster_id; CallSleep 1;
                                CallDescribe cluster_id])
  (* the three turns of the loop, on the results of the attempts *)
  ∧ (∀ s0,
       perform_action_with_retry R cluster_id action s0
       = match attempt R (api_call R action) cluster_id s0 with
         | (Ok s, sa) => (Ok s, sa)
         | (Raise e1, sa) =>
             if is_invalid_state e1 then (Raise e1, sa)
             else
               match attempt R (api_call R action) cluster_id (slept R 5 sa) with
               | (Ok s, sb) => (Ok s, sb)
               | (Raise e2, sb) =>
                   if is_invalid_state e2 then (Raise e2, sb)
                   else attempt R (api_call R action) cluster_id (slept R 5 sb)
               end
         end)
  (* the read fails on the second attempt *)
  ∧ (∀ s0 e1 sa sb sc e',
       attempt R (api_call R action) cluster_id s0 = (Raise e1, sa) →
       is_invalid_state e1 = false →
       api_call R action cluster_id (slept R 5 sa) = (Ok tt, sb) →
       describe R cluster_id (slept R 1 sb) = (Raise e', sc) →
       (is_invalid_state e' = true →
        perform_action_with_retry R cluster_id action s0 = (Raise e', sc))
       ∧ (is_invalid_state e' = false →
          perform_action_with_retry R cluster_id action s0
          = attempt R (api_call R action) cluster_id (slept R 5 sc)
          ∧ ∃ tail,
              calls (snd (perform_action_with_retry R cluster_id action s0))
              = calls sc ++ CallSleep 5 :: invocation action cluster_id :: tail))
  (* the read fails on the third attempt *)
  ∧ (∀ s0 e1 sa e2 sb sc sd e',
       attempt R (api_call R action) cluster_id s0 = (Raise e1, sa) →
       is_invalid_state e1 = false →
       attempt R (api_call R action) cluster_id (slept R 5 sa) = (Raise e2, sb) →
       is_invalid_state e2 = false →
       api_call R action cluster_id (slept R 5 sb) = (Ok tt, sc) →
       describe R cluster_id (slept R 1 sc) = (Raise e', sd) →
       perform_action_with_retry R cluster_id action s0 = (Raise e', sd)).
Proof.
  assert (Hread_fails : ∀ s s1 s2 e',
            api_call R action cluster_id s = (Ok tt, s1) →
            describe R cluster_id (slept R 1 s1) = (Raise e', s2) →
            attempt R (api_call R action) cluster_id s = (Raise e', s2)
            ∧ calls s2 = calls s ++ [invocation action cluster_id; CallSleep 1;
                                     CallDescribe cluster_id]).
  { intros s s1 s2 e' Hi Hr. split; [by eapply attempt_read_raises |].
    pose proof (api_call_calls R action cluster_id s) as H1.
    pose proof (remote_calls (CallDescribe cluster_id)
                  (describe_db_clusters R cluster_id) (slept R 1 s1)) as H2.
    fold (describe R cluster_id) in H2.
    rewrite Hi in H1. rewrite Hr, slept_calls in H2. simpl in H1, H2.
    rewrite H2, H1, <- !app_assoc. reflexivity. }
  assert (Hturns : ∀ s0,
            perform_action_with_retry R cluster_id action s0
            = match attempt R (api_call R action) cluster_id s0 with
              | (Ok s, sa) => (Ok s, sa)
              | (Raise e1, sa) =>
                  if is_invalid_state e1 then (Raise e1, sa)
                  else
                    match attempt R (api_call R action) cluster_id (slept R 5 sa) with
                    | (Ok s, sb) => (Ok s, sb)
                    | (Raise e2, sb) =>
                        if is_invalid_state e2 then (Raise e2, sb)
                        else attempt R (api_call R action) cluster_id (slept R 5 sb)
                    end
              end).
  { intros s0. rewrite perform_unrolled. cbv zeta.
    destruct (attempt R (api_call R action) cluster_id s0) as [[s | e1] sa]; [done |].
    destruct (is_invalid_state e1); [done |].
    destruct (attempt R (api_call R action) cluster_id (slept R 5 sa))
      as [[s | e2] sb]; [done |].
    destruct (is_invalid_state e2); [done |].
    by destruct (attempt R (api_call R action) cluster_id (slept R 5 sb)) as [[s | e3] sc]. }
  destruct (Hread_fails st st1 st2 e Hinvoked Hread) as [Hattempt Hcalls].
  split; [exact Hattempt |]. split; [exact Hcalls |].
  split; [| split; [| split; [| split; [| split; [| split]]]]].
  - intros He. unfold perform_action_with_retry. rewrite range_attempts.
    by apply retry_loop_reraises.
  - intros He.
    assert (Hstep : perform_action_with_retry R cluster_id action st
                    = retry_loop R (api_call R action) cluster_id [2; 3] (Some e)
                        (slept R 5 st2)).
    { unfold perform_action_with_retry. rewrite range_attempts.
      by rewrite (retry_loop_continues R _ _ 1 _ _ _ _ _ Hattempt He). }
    split; [exact Hstep |].
    rewrite Hstep.
    destruct (retry_loop_first_call R action cluster_id 2 [3] (Some e) (slept R 5 st2))
      as [tail Htail].
    exists tail. rewrite Htail, slept_calls, <- app_assoc. reflexivity.
  - intros He last.
    by rewrite (retry_loop_continues R _ _ MAX_RETRIES _ _ _ _ _ Hattempt He).
  - exact Hread_fails.
  - exact Hturns.
  - intros s0 e1 sa sb sc e' H1 He1 Hi Hr.
    destruct (Hread_fails _ _ _ _ Hi Hr) as [H2 _].
    rewrite Hturns, H1, He1, H2. split.
    + by intros ->.
    + intros ->. split; [reflexivity |].
      destruct (attempt_first_call R action cluster_id (slept R 5 sc)) as [tail Htail].
      exists tail. rewrite Htail, slept_calls, <- app_assoc. reflexivity.
  - intros s0 e1 sa e2 sb sc sd e' H1 He1 H2 He2 Hi Hr.
    destruct (Hread_fails _ _ _ _ Hi Hr) as [H3 _].
    by rewrite Hturns, H1, He1, H2, He2, H3.
Qed.

Lemma confirm_read_fault_is_retried_witness :
  (∃ tail,
     calls (snd (perform_action_with_retry scripted "orders" "start"
                   (init read_times_out_once)))
     = [CallStart "orders"; CallSleep 1; CallDescribe "orders"]
       ++ CallSleep 5 :: CallStart "orders" :: tail)
  ∧ perform_action_with_retry scripted "orders" "stop" (init read_never_answers)
    = (Raise access_denied,
       {| world := [AUnit (Ok tt)];
          calls := [CallStop "orders"; CallSleep 1; CallDescribe "orders"; CallSleep 5;
                    CallStop "orders"; CallSleep 1; CallDescribe "orders"; CallSleep 5;
                    CallStop "orders"; CallSleep 1; CallDescribe "orders"] |}).
Proof.
  split.
  - destruct (confirm_read_fault_is_retried scripted "orders" "start"
                (init read_times_out_once) _ _ timeout_error eq_refl eq_refl)
      as (_ & _ & _ & Hretry & _).
    exact (proj2 (Hretry eq_refl)).
  - destruct (confirm_read_fault_is_retried scripted "orders" "stop"
                (init read_never_answers) _ _ timeout_error eq_refl eq_refl)
      as (_ & _ & _ & _ & _ & _ & _ & _ & Hthird).
    refine (Hthird (init read_never_answers) timeout_error _ throttled _ _ _
              access_denied eq_refl eq_refl eq_refl eq_refl eq_refl eq_refl).
Defined.

(** C7, as the claim has it, fails: on a service whose first status read
    times out after a successful start, the start is invoked a second time
    and the fault of the read does not surface. *)
Lemma confirm_read_not_single_shot :
  ¬ confirm_read_single_shot scripted "orders" "start" (init read_times_out_once)
  ∧ perform_action_with_retry scripted "orders" "start" (init read_times_out_once)
    = (Ok "starting",
       {| world := [];
          calls := [CallStart "orders"; CallSleep 1; CallDescribe "orders";
                    CallSleep 5;
                    CallStart "orders"; CallSleep 1; CallDescribe "orders"] |}).
Proof.
  split; [| reflexivity].
  intros Hclaim.
  specialize (Hclaim _ _ timeout_error eq_refl eq_refl).
  discriminate Hclaim.
Qed.

(** ** Transition guard *)

Section GuardFacts.

Context {W : Type} (R : Remote W).

Lemma in_tuple_false (x : string) (t : list string) :
  x ∉ t → in_tuple x t = false.
Proof.
  unfold in_tuple. induction t as [| y t IH]; intros Hx; simpl; [done |].
  apply not_elem_of_cons in Hx as [Hne Hx].
  rewrite (proj2 (String.eqb_neq x y) Hne). by apply IH.
Qed.

(** The guard lets exactly one status through for each action. *)
Lemma guard_start (current_status : string) (result : gmap string string) :
  (current_status = STATUS_STOPPED → guard ACTION_START current_status result = None)
  ∧ (current_status ≠ STATUS_STOPPED →
     ∃ message, guard ACTION_START current_status result
                = Some (<[ "message" := message ]> (<[ "outcome" := "skipped" ]> result))).
Proof.
  split.
  - intros ->. reflexivity.
  - intros Hne. unfold guard. simpl (String.eqb ACTION_START ACTION_START).
    rewrite (proj2 (String.eqb_neq _ _) Hne). cbv iota beta. simpl negb.
    destruct (in_tuple current_status [STATUS_AVAILABLE; STATUS_STARTING]); eauto.
Qed.

Lemma guard_stop (current_status : string) (result : gmap string string) :
  (current_status = STATUS_AVAILABLE → guard ACTION_STOP current_status result = None)
  ∧ (current_status ≠ STATUS_AVAILABLE →
     ∃ message, guard ACTION_STOP current_status result
                = Some (<[ "message" := message ]> (<[ "outcome" := "skipped" ]> result))).
Proof.
  split.
  - intros ->. reflexivity.
  - intros Hne. unfold guard. simpl (String.eqb ACTION_STOP _).
    rewrite (proj2 (String.eqb_neq _ _) Hne). cbv iota beta. simpl negb.
    destruct (in_tuple current_status [STATUS_STOPPED; STATUS_STOPPING]); eauto.
Qed.

(** [process_cluster] once the status has been fetched. *)
Lemma process_cluster_fetched cluster_id action st response st1 current_status :
  describe R cluster_id st = (Ok response, st1) →
  first_status response = Ok current_status →
  process_cluster R cluster_id action st
  = let result := <[ "status" := current_status ]> (new_result cluster_id) in
    match guard action current_status result with
    | Some skipped => (Ok skipped, st1)
    | None =>
        match perform_action_with_retry R cluster_id action st1 with
        | (Raise exc, st2) => (Ok (on_exception result exc), st2)
        | (Ok new_status, st2) =>
            (Ok (<[ "message" := "Action '" +:+ action +:+ "' initiated successfully." ]>
                   (<[ "status" := new_status ]>
                      (<[ "outcome" := "processed" ]> result))),
             st2)
        end
    end.
Proof.
  intros Hfetch Hstatus. unfold process_cluster, bind, lift.
  by rewrite Hfetch, Hstatus.
Qed.

Lemma guard_some_skips cluster_id action st response st1 current_status message :
  describe R cluster_id st = (Ok response, st1) →
  first_status response = Ok current_status →
  guard action current_status (<[ "status" := current_status ]> (new_result cluster_id))
  = Some (<[ "message" := message ]>
            (<[ "outcome" := "skipped" ]>
               (<[ "status" := current_status ]> (new_result cluster_id)))) →
  skips R cluster_id action current_status st st1.
Proof.
  intros Hfetch Hstatus Hguard. eexists. split; [| split].
  - rewrite (process_cluster_fetched _ _ _ _ _ _ Hfetch Hstatus). simpl.
    rewrite Hguard. reflexivity.
  - by simplify_map_eq.
  - by simplify_map_eq.
Qed.

Lemma guard_none_proceeds cluster_id action st response st1 current_status :
  describe R cluster_id st = (Ok response, st1) →
  first_status response = Ok current_status →
  guard action current_status (<[ "status" := current_status ]> (new_result cluster_id))
  = None →
  proceeds R cluster_id action st st1.
Proof.
  intros Hfetch Hstatus Hguard. unfold proceeds.
  rewrite (process_cluster_fetched _ _ _ _ _ _ Hfetch Hstatus). simpl.
  rewrite Hguard.
  destruct (perform_first_call R action cluster_id st1) as [tail Htail].
  destruct (perform_action_with_retry R cluster_id action st1) as [[new_status | exc] st2];
    simpl in *.
  - split; [done |]. split; [by exists tail |]. eexists. split; [done |].
    by simplify_map_eq.
  - split; [done |]. split; [by exists tail |]. eexists. split; [done |].
    unfold on_exception. by simplify_map_eq.
Qed.

End GuardFacts.

(** C1. Once the status has been fetched, [process_cluster] proceeds to
    execution from one status per action and skips from every other one.
    Start: "available" and "starting" skip, "stopped" proceeds, every status
    other than "stopped" skips.  Stop: "stopped" and "stopping" skip,
    "available" proceeds, every status other than "available" skips. *)
Theorem transition_guard_one_source_state {W : Type} (R : Remote W)
    (cluster_id current_status : string) (st st1 : state W)
    (response : gmap string (list cluster))
    (Hfetch : describe R cluster_id st = (Ok response, st1))
    (Hstatus : first_status response = Ok current_status) :
  (current_status = STATUS_AVAILABLE ∨ current_status = STATUS_STARTING →
   skips R cluster_id ACTION_START current_status st st1)
  ∧ (current_status = STATUS_STOPPED → proceeds R cluster_id ACTION_START st st1)
  ∧ (current_status ≠ STATUS_STOPPED →
     skips R cluster_id ACTION_START current_status st st1)
  ∧ (current_status = STATUS_STOPPED ∨ current_status = STATUS_STOPPING →
     skips R cluster_id ACTION_STOP current_status st st1)
  ∧ (current_status = STATUS_AVAILABLE → proceeds R cluster_id ACTION_STOP st st1)
  ∧ (current_status ≠ STATUS_AVAILABLE →
     skips R cluster_id ACTION_STOP current_status st st1).
Proof.
  set (result := <[ "status" := current_status ]> (new_result cluster_id)).
  destruct (guard_start current_status result) as [Hstart_go Hstart_skip].
  destruct (guard_stop current_status result) as [Hstop_go Hstop_skip].
  assert (Hstart : current_status ≠ STATUS_STOPPED →
                   skips R cluster_id ACTION_START current_status st st1).
  { intros Hne. destruct (Hstart_skip Hne) as [message Hguard].
    exact (guard_some_skips R _ _ _ _ _ _ _ Hfetch Hstatus Hguard). }
  assert (Hstop : current_status ≠ STATUS_AVAILABLE →
                  skips R cluster_id ACTION_STOP current_status st st1).
  { intros Hne. destruct (Hstop_skip Hne) as [message Hguard].
    exact (guard_some_skips R _ _ _ _ _ _ _ Hfetch Hstatus Hguard). }
  split; [| split; [| split; [| split; [| split]]]].
  - intros [-> | ->]; by apply Hstart.
  - intros Heq. exact (guard_none_proceeds R _ _ _ _ _ _ Hfetch Hstatus (Hstart_go Heq)).
  - exact Hstart.
  - intros [-> | ->]; by apply Hstop.
  - intros Heq. exact (guard_none_proceeds R _ _ _ _ _ _ Hfetch Hstatus (Hstop_go Heq)).
  - exact Hstop.
Qed.

Lemma transition_guard_one_source_state_witness :
  skips scripted "orders" ACTION_START "starting"
    (init [in_status "starting"; AUnit (Ok tt)])
    {| world := [AUnit (Ok tt)]; calls := [CallDescribe "orders"] |}
  ∧ proceeds scripted "orders" ACTION_STOP
      (init [in_status "available"; AUnit (Ok tt); in_status "stopping"])
      {| world := [AUnit (Ok tt); in_status "stopping"];
         calls := [CallDescribe "orders"] |}.
Proof.
  split.
  - refine (proj1 (transition_guard_one_source_state scripted "orders" "starting"
                     _ _ _ _ _) _); [reflexivity | reflexivity | by right].
  - refine (proj1 (proj2 (proj2 (proj2 (proj2
              (transition_guard_one_source_state scripted "orders" "available"
                 _ _ _ _ _))))) _); reflexivity.
Defined.

Example start_from_stopped_is_processed :
  let run := process_cluster scripted "orders" "start"
               (init [in_status "stopped"; AUnit (Ok tt); in_status "starting"]) in
  (fst run = Ok {[ "cluster_id" := "orders"; "outcome" := "processed";
                   "message" := "Action 'start' initiated successfully.";
                   "status" := "starting" ]})
  ∧ calls (snd run)
    = [CallDescribe "orders"; CallStart "orders"; CallSleep 1; CallDescribe "orders"].
Proof. split; reflexivity. Qed.

Lemma lower_named_status (named : string) :
  named ∈ [STATUS_AVAILABLE; STATUS_STOPPED; STATUS_STARTING; STATUS_STOPPING] →
  lower named = named.
Proof.
  rewrite !elem_of_cons, elem_of_nil.
  intros [-> | [-> | [-> | [-> | []]]]]; reflexivity.
Qed.

(** C10. The guard compares the fetched status with the lower-case literals
    as it is, without changing its case.  A status that becomes one of
    "available", "stopped", "starting", "stopping" when lowered but is not
    that literal itself is none of the four literals for the guard, and
    under either action [process_cluster] skips it with the message of the
    "cannot ... from this state" branch. *)
Theorem guard_is_case_sensitive {W : Type} (R : Remote W)
    (cluster_id action current_status named : string) (st st1 : state W)
    (response : gmap string (list cluster))
    (Haction : action = ACTION_START ∨ action = ACTION_STOP)
    (Hfetch : describe R cluster_id st = (Ok response, st1))
    (Hstatus : first_status response = Ok current_status)
    (Hnamed : named ∈ [STATUS_AVAILABLE; STATUS_STOPPED; STATUS_STARTING; STATUS_STOPPING])
    (Hcase : lower current_status = named)
    (Hdiffers : current_status ≠ named) :
  (current_status ∉ [STATUS_AVAILABLE; STATUS_STOPPED; STATUS_STARTING; STATUS_STOPPING])
  ∧ ∃ result : gmap string string,
      process_cluster R cluster_id action st = (Ok result, st1)
      ∧ result !! "outcome" = Some "skipped"
      ∧ result !! "status" = Some current_status
      ∧ result !! "message"
        = Some ("Cannot " +:+ action +:+ " from '" +:+ current_status +:+ "' state.").
Proof.
  assert (Hother : current_status ∉ [STATUS_AVAILABLE; STATUS_STOPPED;
                                     STATUS_STARTING; STATUS_STOPPING]).
  { intros Hin. apply Hdiffers. rewrite <- Hcase. symmetry.
    by apply lower_named_status. }
  split; [exact Hother |].
  rewrite (process_cluster_fetched R _ _ _ _ _ _ Hfetch Hstatus). simpl.
  rewrite !not_elem_of_cons in Hother.
  destruct Hother as (Havailable & Hstopped & Hstarting & Hstopping & _).
  unfold guard.
  destruct Haction as [-> | ->].
  - change (String.eqb ACTION_START ACTION_START) with true. cbv iota.
    rewrite in_tuple_false
      by (rewrite !not_elem_of_cons; repeat split; [done | done | apply not_elem_of_nil]).
    rewrite (proj2 (String.eqb_neq _ _) Hstopped). simpl negb. cbv iota.
    eexists. split; [reflexivity |]. by simplify_map_eq.
  - change (String.eqb ACTION_STOP ACTION_START) with false.
    change (String.eqb ACTION_STOP ACTION_STOP) with true. cbv iota.
    rewrite in_tuple_false
      by (rewrite !not_elem_of_cons; repeat split; [done | done | apply not_elem_of_nil]).
    rewrite (proj2 (String.eqb_neq _ _) Havailable). simpl negb. cbv iota.
    eexists. split; [reflexivity |]. by simplify_map_eq.
Qed.

Lemma guard_is_case_sensitive_witness :
  ∃ result : gmap string string,
    process_cluster scripted "orders" "start"
      (init [in_status "Stopped"; AUnit (Ok tt); in_status "starting"])
    = (Ok result, {| world := [AUnit (Ok tt); in_status "starting"];
                     calls := [CallDescribe "orders"] |})
    ∧ result !! "outcome" = Some "skipped"
    ∧ result !! "status" = Some "Stopped"
    ∧ result !! "message" = Some "Cannot start from 'Stopped' state.".
Proof.
  refine (proj2 (guard_is_case_sensitive scripted "orders" "start" "Stopped" "stopped"
                   _ _ _ _ _ _ _ _ _)).
  - by left.
  - reflexivity.
  - reflexivity.
  - apply list_elem_of_further, list_elem_of_here.
  - reflexivity.
  - discriminate.
Defined.

(** ** Orchestrator *)

Section HandlerFacts.

Context {W : Type} (R : Remote W).

Lemma grows_ret {A : Type} (a : A) : grows (@ret W A a).
Proof. intros st. exists []. simpl. by rewrite app_nil_r. Qed.

Lemma grows_raise {A : Type} (e : exn) : grows (@raise W A e).
Proof. intros st. exists []. simpl. by rewrite app_nil_r. Qed.

Lemma grows_lift {A : Type} (r : result A) : grows (@lift W A r).
Proof. intros st. exists []. simpl. by rewrite app_nil_r. Qed.

Lemma grows_remote {A : Type} (c : call) (op : W -> result A * W) : grows (remote c op).
Proof. intros st. exists [c]. apply remote_calls. Qed.

Lemma grows_bind {A B : Type} (m : M W A) (k : A -> M W B) :
  grows m → (∀ a, grows (k a)) → grows (bind m k).
Proof.
  intros Hm Hk st. unfold bind. destruct (Hm st) as [t1 H1].
  destruct (m st) as [[a | e] st1]; simpl in H1.
  - destruct (Hk a st1) as [t2 H2]. exists (t1 ++ t2). log_eq.
  - by exists t1.
Qed.

Lemma grows_try_except {A : Type} (m : M W A) (h : exn -> M W A) :
  grows m → (∀ e, grows (h e)) → grows (try_except m h).
Proof.
  intros Hm Hh st. unfold try_except. destruct (Hm st) as [t1 H1].
  destruct (m st) as [[a | e] st1]; simpl in H1.
  - by exists t1.
  - destruct (Hh e st1) as [t2 H2]. exists (t1 ++ t2). log_eq.
Qed.

Create HintDb grows.
#[local] Hint Resolve grows_ret grows_raise grows_lift grows_remote : grows.

(** The two items of a result, after the updates have been looked through. *)
Ltac result_items outcome :=
  split;
  [ exists outcome; split; [by simplify_map_eq | auto]
  | simplify_map_eq; eauto ].

Ltac grows_step :=
  first [ apply grows_bind; [| intros ?]
        | apply grows_try_except; [| intros ?]
        | solve [auto with grows] ].

Lemma grows_has_schedule_tag cluster_arn tag_key :
  grows (has_schedule_tag R cluster_arn tag_key).
Proof. unfold has_schedule_tag, list_tags. repeat grows_step. Qed.

Lemma grows_perform cluster_id action :
  grows (perform_action_with_retry R cluster_id action).
Proof.
  intros st. destruct (perform_first_call R action cluster_id st) as [tail H].
  by exists (invocation action cluster_id :: tail).
Qed.

Lemma guard_shape action current_status result skipped :
  guard action current_status result = Some skipped →
  ∃ message, skipped = <[ "message" := message ]> (<[ "outcome" := "skipped" ]> result).
Proof. unfold guard. repeat case_match; intros [= <-]; eauto. Qed.

(** [process_cluster] never raises, and its result has the two items that
    the handler reads. *)
Lemma process_cluster_total cluster_id action st :
  ∃ result st1,
    process_cluster R cluster_id action st = (Ok result, st1)
    ∧ (∃ tail, calls st1 = calls st ++ CallDescribe cluster_id :: tail)
    ∧ (∃ outcome, result !! "outcome" = Some outcome
                  ∧ (outcome = "processed" ∨ outcome = "skipped" ∨ outcome = "failed"))
    ∧ is_Some (result !! "message").
Proof.
  unfold process_cluster, bind, lift, describe.
  pose proof (remote_calls (CallDescribe cluster_id)
                (describe_db_clusters R cluster_id) st) as Hd.
  destruct (remote (CallDescribe cluster_id) (describe_db_clusters R cluster_id) st)
    as [[response | exc] st1]; simpl in Hd.
  - destruct (first_status response) as [current_status | exc].
    + destruct (guard action current_status _) as [skipped |] eqn:Hguard.
      * apply guard_shape in Hguard as [message ->].
        eexists _, _. split; [reflexivity |]. split; [by exists [] |].
        result_items "skipped".
      * destruct (grows_perform cluster_id action st1) as [tail Ht].
        destruct (perform_action_with_retry R cluster_id action st1)
          as [[new_status | exc] st2]; simpl in Ht;
          eexists _, _; (split; [reflexivity |]);
          (split; [exists ([] ++ tail); log_eq |]); unfold on_exception.
        -- result_items "processed".
        -- result_items "failed".
    + eexists _, _. split; [reflexivity |]. split; [by exists [] |].
      unfold on_exception. result_items "failed".
  - eexists _, _. split; [reflexivity |]. split; [by exists [] |].
    unfold on_exception. result_items "failed".
Qed.

(** *** The processing loop *)

(** One turn of the processing loop, on the result of [process_cluster]. *)
Lemma process_eligible_turn action cluster_id rest processed skipped failed
    st result st1 outcome :
  process_cluster R cluster_id action st = (Ok result, st1) →
  result !! "outcome" = Some outcome →
  is_Some (result !! "message") →
  process_eligible R action (cluster_id :: rest) processed skipped failed st
  = if String.eqb outcome "processed" then
      process_eligible R action rest (processed ++ [cluster_id]) skipped failed st1
    else if String.eqb outcome "skipped" then
      process_eligible R action rest processed (skipped ++ [cluster_id]) failed st1
    else
      process_eligible R action rest processed skipped (failed ++ [cluster_id]) st1.
Proof.
  intros Hrun Houtcome [message Hmessage]. simpl.
  unfold bind, lift, dict_item. rewrite Hrun, Houtcome, Hmessage.
  by repeat case_match.
Qed.

Lemma process_eligible_app action l1 l2 :
  ∀ processed skipped failed st,
    process_eligible R action (l1 ++ l2) processed skipped failed st
    = bind (process_eligible R action l1 processed skipped failed)
        (λ r, process_eligible R action l2
                (ProcessedClusters r) (SkippedClusters r) (FailedClusters r)) st.
Proof.
  induction l1 as [| cluster_id l1 IH]; intros processed skipped failed st.
  - reflexivity.
  - destruct (process_cluster_total cluster_id action st)
      as (result & st1 & Hrun & _ & (outcome & Houtcome & _) & Hmessage).
    simpl app.
    rewrite (process_eligible_turn _ _ _ _ _ _ _ _ _ _ Hrun Houtcome Hmessage).
    unfold bind.
    rewrite (process_eligible_turn _ _ _ _ _ _ _ _ _ _ Hrun Houtcome Hmessage).
    destruct (String.eqb outcome "processed");
      [| destruct (String.eqb outcome "skipped")]; by rewrite IH.
Qed.

(** The loop never raises; it adds every identifier of [eligible] to one of
    the three lists and adds nothing else. *)
Lemma process_eligible_spec action eligible :
  ∀ processed skipped failed st,
    ∃ report st' processed' skipped' failed',
      process_eligible R action eligible processed skipped failed st = (Ok report, st')
      ∧ ProcessedClusters report = processed ++ processed'
      ∧ SkippedClusters report = skipped ++ skipped'
      ∧ FailedClusters report = failed ++ failed'
      ∧ processed' ++ skipped' ++ failed' ≡ₚ eligible.
Proof.
  induction eligible as [| cluster_id rest IH]; intros processed skipped failed st.
  - exists {| ProcessedClusters := processed; SkippedClusters := skipped;
              FailedClusters := failed |}, st, [], [], [].
    simpl. by rewrite !app_nil_r.
  - destruct (process_cluster_total cluster_id action st)
      as (result & st1 & Hrun & _ & (outcome & Houtcome & _) & Hmessage).
    rewrite (process_eligible_turn _ _ _ _ _ _ _ _ _ _ Hrun Houtcome Hmessage).
    destruct (String.eqb outcome "processed"); [| destruct (String.eqb outcome "skipped")].
    + destruct (IH (processed ++ [cluster_id]) skipped failed st1)
        as (report & st' & p' & s' & f' & Heq & Hp & Hs & Hf & Hperm).
      exists report, st', (cluster_id :: p'), s', f'.
      rewrite Hp, <- app_assoc. repeat split; try done.
      simpl. by rewrite Hperm.
    + destruct (IH processed (skipped ++ [cluster_id]) failed st1)
        as (report & st' & p' & s' & f' & Heq & Hp & Hs & Hf & Hperm).
      exists report, st', p', (cluster_id :: s'), f'.
      rewrite Hs, <- app_assoc. repeat split; try done.
      simpl. by rewrite <- Permutation_middle, Hperm.
    + destruct (IH processed skipped (failed ++ [cluster_id]) st1)
        as (report & st' & p' & s' & f' & Heq & Hp & Hs & Hf & Hperm).
      exists report, st', p', s', (cluster_id :: f').
      rewrite Hf, <- app_assoc. repeat split; try done.
      by rewrite app_assoc, <- Permutation_middle, <- app_assoc, Hperm.
Qed.

(** *** The selection loop *)

Lemma is_stoppable_cluster_total (c : cluster) :
  is_Some (c !! "DBClusterIdentifier") → ∃ b, is_stoppable_cluster c = Ok b.
Proof.
  intros [cluster_id Hid]. unfold is_stoppable_cluster, dict_item. rewrite Hid.
  repeat case_match; eauto.
Qed.

Lemma has_schedule_tag_total cluster_arn tag_key st :
  ∃ b st1, has_schedule_tag R cluster_arn tag_key st = (Ok b, st1).
Proof.
  unfold has_schedule_tag, try_except.
  destruct (bind _ _ st) as [[b | e] st1]; eauto.
Qed.

(** One turn of the selection loop for a cluster that is let through. *)
Lemma select_eligible_selects tag_key c rest eligible st cluster_id arn st1 :
  c !! "DBClusterIdentifier" = Some cluster_id →
  is_stoppable_cluster c = Ok true →
  c !! "DBClusterArn" = Some arn →
  has_schedule_tag R arn tag_key st = (Ok true, st1) →
  select_eligible R tag_key (c :: rest) eligible st
  = select_eligible R tag_key rest (eligible ++ [cluster_id]) st1.
Proof.
  intros Hid Hstoppable Harn Htag. cbn [select_eligible]. unfold bind, lift, dict_item.
  rewrite Hstoppable. cbn [negb]. rewrite Harn, Htag. cbn [negb]. by rewrite Hid.
Qed.

(** One turn of the selection loop for a cluster that is turned away. *)
Lemma select_eligible_filtered tag_key c rest eligible st :
  is_stoppable_cluster c = Ok false →
  select_eligible R tag_key (c :: rest) eligible st
  = select_eligible R tag_key rest eligible st.
Proof. intros H. cbn [select_eligible]. unfold bind, lift. by rewrite H. Qed.

Lemma select_eligible_untagged tag_key c rest eligible st arn st1 :
  is_stoppable_cluster c = Ok true →
  c !! "DBClusterArn" = Some arn →
  has_schedule_tag R arn tag_key st = (Ok false, st1) →
  select_eligible R tag_key (c :: rest) eligible st
  = select_eligible R tag_key rest eligible st1.
Proof.
  intros Hstoppable Harn Htag. cbn [select_eligible]. unfold bind, lift, dict_item.
  rewrite Hstoppable. cbn [negb]. by rewrite Harn, Htag.
Qed.

Lemma select_eligible_app tag_key l1 l2 :
  ∀ eligible st,
    select_eligible R tag_key (l1 ++ l2) eligible st
    = bind (select_eligible R tag_key l1 eligible)
        (λ eligible1, select_eligible R tag_key l2 eligible1) st.
Proof.
  induction l1 as [| c l1 IH]; intros eligible st; [reflexivity |].
  cbn [select_eligible app]. unfold bind, lift in *.
  destruct (is_stoppable_cluster c) as [[] | e]; cbn [negb]; [| apply IH | done].
  destruct (dict_item c "DBClusterArn") as [arn | e]; [| done].
  destruct (has_schedule_tag R arn tag_key st) as [[[] | e] st1]; cbn [negb];
    [| apply IH | done].
  destruct (dict_item c "DBClusterIdentifier") as [cluster_id | e]; [| done].
  apply IH.
Qed.

(** What a selection that returns has added: identifiers of discovered
    clusters, in the order of discovery, each of a cluster that passed the
    filter and whose tag lookup answered [True]. *)
Lemma select_eligible_spec tag_key all_clusters :
  ∀ eligible st selected st',
    select_eligible R tag_key all_clusters eligible st = (Ok selected, st') →
    ∃ added,
      selected = eligible ++ added
      ∧ (Some <$> added) `sublist_of` ((λ c : cluster, c !! "DBClusterIdentifier") <$> all_clusters)
      ∧ ∀ cluster_id, cluster_id ∈ added →
          ∃ (c : cluster) arn st_a st_b,
            c ∈ all_clusters
            ∧ c !! "DBClusterIdentifier" = Some cluster_id
            ∧ is_stoppable_cluster c = Ok true
            ∧ c !! "DBClusterArn" = Some arn
            ∧ has_schedule_tag R arn tag_key st_a = (Ok true, st_b).
Proof.
  induction all_clusters as [| c rest IH]; intros eligible st selected st' Hrun.
  - injection Hrun as <- <-. exists []. rewrite app_nil_r.
    split; [done |]. split; [constructor |]. intros ? Hin. by apply elem_of_nil in Hin.
  - cbn [select_eligible] in Hrun. unfold bind, lift, dict_item in Hrun.
    destruct (is_stoppable_cluster c) as [[] | e] eqn:Hstoppable; cbn [negb] in Hrun;
      [| | done].
    + destruct (c !! "DBClusterArn") as [arn |] eqn:Harn; [| done].
      destruct (has_schedule_tag R arn tag_key st) as [[[] | e] st1] eqn:Htag;
        cbn [negb] in Hrun; [| | done].
      * destruct (c !! "DBClusterIdentifier") as [cluster_id |] eqn:Hid; [| done].
        destruct (IH _ _ _ _ Hrun) as (added & -> & Hsub & Hselected).
        exists (cluster_id :: added). rewrite <- app_assoc.
        split; [done |]. split.
        -- simpl. rewrite Hid. by apply sublist_skip.
        -- intros id [-> | Hin]%elem_of_cons.
           ++ exists c, arn, st, st1. split; [apply list_elem_of_here | done].
           ++ destruct (Hselected id Hin) as (c' & arn' & sa & sb & Hc' & Hrest).
              exists c', arn', sa, sb. split; [by apply list_elem_of_further | done].
      * destruct (IH _ _ _ _ Hrun) as (added & -> & Hsub & Hselected).
        exists added. split; [done |]. split.
        -- simpl. by apply sublist_cons.
        -- intros id Hin.
           destruct (Hselected id Hin) as (c' & arn' & sa & sb & Hc' & Hrest).
           exists c', arn', sa, sb. split; [by apply list_elem_of_further | done].
    + destruct (IH _ _ _ _ Hrun) as (added & -> & Hsub & Hselected).
      exists added. split; [done |]. split.
      * simpl. by apply sublist_cons.
      * intros id Hin.
        destruct (Hselected id Hin) as (c' & arn' & sa & sb & Hc' & Hrest).
        exists c', arn', sa, sb. split; [by apply list_elem_of_further | done].
Qed.

(** With the two keys on every descriptor, the selection never raises. *)
Lemma select_eligible_total tag_key all_clusters :
  Forall (λ c : cluster, is_Some (c !! "DBClusterIdentifier")
                         ∧ is_Some (c !! "DBClusterArn")) all_clusters →
  ∀ eligible st, ∃ selected st',
    select_eligible R tag_key all_clusters eligible st = (Ok selected, st').
Proof.
  induction 1 as [| c rest [Hid [arn Harn]] _ IH]; intros eligible st.
  - by exists eligible, st.
  - destruct (is_stoppable_cluster_total c Hid) as [[] Hstoppable].
    + destruct (has_schedule_tag_total arn tag_key st) as ([] & st1 & Htag).
      * destruct Hid as [cluster_id Hid].
        rewrite (select_eligible_selects _ _ _ _ _ _ _ _ Hid Hstoppable Harn Htag).
        apply IH.
      * rewrite (select_eligible_untagged _ _ _ _ _ _ _ Hstoppable Harn Htag).
        apply IH.
    + rewrite (select_eligible_filtered _ _ _ _ _ Hstoppable). apply IH.
Qed.

(** *** The handler *)

Lemma grows_process_cluster cluster_id action : grows (process_cluster R cluster_id action).
Proof.
  intros st.
  destruct (process_cluster_total cluster_id action st)
    as (result & st1 & -> & [tail Htail] & _).
  eauto.
Qed.

Lemma grows_select_eligible tag_key all_clusters :
  ∀ eligible, grows (select_eligible R tag_key all_clusters eligible).
Proof.
  induction all_clusters as [| c rest IH]; intros eligible; cbn [select_eligible].
  - apply grows_ret.
  - apply grows_bind; [apply grows_lift | intros []]; cbn [negb]; [| apply IH].
    apply grows_bind; [apply grows_lift | intros arn].
    apply grows_bind; [apply grows_has_schedule_tag | intros []]; cbn [negb];
      [| apply IH].
    apply grows_bind; [apply grows_lift | intros cluster_id; apply IH].
Qed.

Lemma grows_process_eligible action eligible :
  ∀ processed skipped failed,
    grows (process_eligible R action eligible processed skipped failed).
Proof.
  induction eligible as [| cluster_id rest IH]; intros processed skipped failed;
    cbn [process_eligible].
  - apply grows_ret.
  - apply grows_bind; [apply grows_process_cluster | intros result].
    apply grows_bind; [apply grows_lift | intros outcome].
    apply grows_bind; [apply grows_lift | intros _].
    repeat case_match; apply IH.
Qed.

Lemma grows_discover : grows (discover R).
Proof. unfold discover, pages. repeat grows_step. Qed.

(** The handler on a valid action. *)
Lemma handler_valid event :
  valid_action (requested_action event) →
  handler R event
  = (client R ;;;
     all_clusters <~ discover R ;;
     eligible <~ select_eligible R (requested_tag_key event) all_clusters [] ;;
     process_eligible R (requested_action event) eligible [] [] []).
Proof.
  unfold valid_action, requested_action, handler. intros [H | H]; by rewrite H.
Qed.

Lemma handler_invalid event st :
  ¬ valid_action (requested_action event) →
  handler R event st
  = (Raise (ValueError ("Invalid Action '" +:+ str_get event "Action"
                          +:+ "'. Must be 'Start' or 'Stop'.")), st).
Proof.
  unfold valid_action, requested_action, handler. intros Hinvalid.
  rewrite in_tuple_false; [done |].
  rewrite !not_elem_of_cons. repeat split; [tauto | tauto | apply not_elem_of_nil].
Qed.

Lemma valid_action_dec action : valid_action action ∨ ¬ valid_action action.
Proof.
  unfold valid_action.
  destruct (decide (action = ACTION_START)); [by left; left |].
  destruct (decide (action = ACTION_STOP)); [by left; right |].
  right. tauto.
Qed.

Lemma handler_first_call event st :
  valid_action (requested_action event) →
  ∃ tail, calls (snd (handler R event st)) = calls st ++ CallClient :: tail.
Proof.
  intros Hvalid. rewrite (handler_valid event Hvalid). unfold bind at 1.
  pose proof (remote_calls CallClient (boto3_client R) st) as Hc.
  fold (client R) in Hc.
  destruct (client R st) as [[[] | e] st_c]; simpl in Hc.
  - match goal with |- context [calls (snd (?m st_c))] =>
      assert (Hgrows : grows m)
    end.
    { apply grows_bind; [apply grows_discover | intros all_clusters].
      apply grows_bind; [apply grows_select_eligible | intros eligible].
      apply grows_process_eligible. }
    destruct (Hgrows st_c) as [tail Htail]. exists tail.
    rewrite Htail, Hc, <- app_assoc. reflexivity.
  - exists []. exact Hc.
Qed.

(** What a run that returns has gone through. *)
Lemma handler_returns event st report st' :
  handler R event st = (Ok report, st') →
  valid_action (requested_action event)
  ∧ ∃ st_c all_clusters st_d eligible st_e,
      client R st = (Ok tt, st_c)
      ∧ discover R st_c = (Ok all_clusters, st_d)
      ∧ select_eligible R (requested_tag_key event) all_clusters [] st_d
        = (Ok eligible, st_e)
      ∧ process_eligible R (requested_action event) eligible [] [] [] st_e
        = (Ok report, st').
Proof.
  intros Hrun.
  destruct (valid_action_dec (requested_action event)) as [Hvalid | Hinvalid].
  - split; [exact Hvalid |].
    rewrite (handler_valid event Hvalid) in Hrun. unfold bind in Hrun.
    destruct (client R st) as [[[] | e] st_c] eqn:Hclient; [| done].
    destruct (discover R st_c) as [[all_clusters | e] st_d] eqn:Hdiscover; [| done].
    destruct (select_eligible R _ all_clusters [] st_d) as [[eligible | e] st_e] eqn:Hsel;
      [| done].
    by exists st_c, all_clusters, st_d, eligible, st_e.
  - by rewrite (handler_invalid event st Hinvalid) in Hrun.
Qed.

End HandlerFacts.

Section ReportFacts.

Context {W : Type} (R : Remote W).

(** The identifier of a cluster goes to the list named by the outcome of its
    own [process_cluster], whatever happened to the clusters before it, and
    the clusters after it are still processed. *)
Lemma process_eligible_places action before cluster_id after st_e report st'
    rep_b st_b result st_c outcome :
  process_eligible R action (before ++ cluster_id :: after) [] [] [] st_e
  = (Ok report, st') →
  process_eligible R action before [] [] [] st_e = (Ok rep_b, st_b) →
  process_cluster R cluster_id action st_b = (Ok result, st_c) →
  result !! "outcome" = Some outcome →
  cluster_id ∈ list_of_outcome outcome report.
Proof.
  intros Hrun Hbefore Hone Houtcome.
  rewrite process_eligible_app in Hrun. unfold bind in Hrun. rewrite Hbefore in Hrun.
  destruct (process_cluster_total R cluster_id action st_b)
    as (result' & st1 & Hone' & _ & _ & Hmessage).
  rewrite Hone in Hone'. injection Hone' as <- <-.
  rewrite (process_eligible_turn R _ _ _ _ _ _ _ _ _ _ Hone Houtcome Hmessage) in Hrun.
  unfold list_of_outcome.
  destruct (String.eqb outcome "processed"); [| destruct (String.eqb outcome "skipped")];
    match type of Hrun with
    | process_eligible _ _ _ ?p ?s ?f ?st = _ =>
        destruct (process_eligible_spec R action after p s f st)
          as (r & st2 & p' & s' & f' & Heq & Hp & Hs & Hf & _)
    end;
    rewrite Heq in Hrun; injection Hrun as <- <-.
  - rewrite Hp. set_solver.
  - rewrite Hs. set_solver.
  - rewrite Hf. set_solver.
Qed.

(** A cluster that the selection turns away is not selected, when no other
    discovered cluster has its identifier. *)
Lemma select_eligible_rejects tag_key before c after cluster_id st_d eligible st_e
    el_b st_b :
  NoDup (identifiers (before ++ c :: after)) →
  c !! "DBClusterIdentifier" = Some cluster_id →
  select_eligible R tag_key (before ++ c :: after) [] st_d = (Ok eligible, st_e) →
  select_eligible R tag_key before [] st_d = (Ok el_b, st_b) →
  rejected R tag_key c st_b →
  cluster_id ∉ eligible.
Proof.
  intros Hnodup Hid Hrun Hbefore Hrejected.
  unfold identifiers in Hnodup. rewrite fmap_app, fmap_cons, Hid in Hnodup.
  apply NoDup_app in Hnodup as (_ & Hdisjoint & [Hafter _]%NoDup_cons).
  rewrite select_eligible_app in Hrun. unfold bind in Hrun. rewrite Hbefore in Hrun.
  assert (Hrest : ∃ st1, select_eligible R tag_key after el_b st1 = (Ok eligible, st_e)).
  { destruct Hrejected as [Hfilter | (arn & st1 & Hstoppable & Harn & Htag)].
    - rewrite (select_eligible_filtered R _ _ _ _ _ Hfilter) in Hrun. eauto.
    - rewrite (select_eligible_untagged R _ _ _ _ _ _ _ Hstoppable Harn Htag) in Hrun.
      eauto. }
  destruct Hrest as [st1 Hrest].
  destruct (select_eligible_spec R _ _ _ _ _ _ Hbefore) as (added_b & -> & Hsub_b & _).
  destruct (select_eligible_spec R _ _ _ _ _ _ Hrest) as (added_a & -> & Hsub_a & _).
  simpl. intros [Hin | Hin]%elem_of_app.
  - apply (Hdisjoint (Some cluster_id)).
    + apply (elem_of_sublist _ _ _ (list_elem_of_fmap_2 Some _ _ Hin) Hsub_b).
    + apply list_elem_of_here.
  - apply Hafter.
    apply (elem_of_sublist _ _ _ (list_elem_of_fmap_2 Some _ _ Hin) Hsub_a).
Qed.

(** What the selection has selected has no duplicates when the discovered
    identifiers have none. *)
Lemma select_eligible_NoDup tag_key all_clusters st eligible st' :
  NoDup (identifiers all_clusters) →
  select_eligible R tag_key all_clusters [] st = (Ok eligible, st') →
  NoDup eligible.
Proof.
  intros Hnodup Hrun.
  destruct (select_eligible_spec R _ _ _ _ _ _ Hrun) as (added & -> & Hsub & _).
  simpl. apply (NoDup_fmap_1 Some). by apply (sublist_NoDup _ _ Hnodup).
Qed.

(** A fault of the status fetch, or of the execution after the guard has let
    the status through, becomes a "failed" result with the text of the fault. *)
Lemma process_cluster_fetch_fault cluster_id action st e st1 :
  fetch R cluster_id st = (Raise e, st1) →
  ∃ result : gmap string string,
    process_cluster R cluster_id action st = (Ok result, st1)
    ∧ result !! "outcome" = Some "failed"
    ∧ result !! "message" = Some (str_exn e).
Proof.
  intros Hfetch. unfold process_cluster. fold (fetch R cluster_id). rewrite Hfetch.
  eexists. split; [reflexivity |]. unfold on_exception. by simplify_map_eq.
Qed.

Lemma process_cluster_execute_fault cluster_id action st current_status st1 e st2 :
  fetch R cluster_id st = (Ok current_status, st1) →
  (action = ACTION_START ∧ current_status = STATUS_STOPPED)
  ∨ (action = ACTION_STOP ∧ current_status = STATUS_AVAILABLE) →
  perform_action_with_retry R cluster_id action st1 = (Raise e, st2) →
  ∃ result : gmap string string,
    process_cluster R cluster_id action st = (Ok result, st2)
    ∧ result !! "outcome" = Some "failed"
    ∧ result !! "message" = Some (str_exn e).
Proof.
  intros Hfetch Hgo Hperform. unfold process_cluster. fold (fetch R cluster_id).
  rewrite Hfetch. cbv zeta.
  assert (Hguard : guard action current_status
                     (<[ "status" := current_status ]> (new_result cluster_id)) = None).
  { by destruct Hgo as [[-> ->] | [-> ->]]. }
  rewrite Hguard, Hperform.
  eexists. split; [reflexivity |]. unfold on_exception. by simplify_map_eq.
Qed.

End ReportFacts.

Example three_clusters_run :
  fst (handler scripted stop_event (init three_clusters))
  = Ok {| ProcessedClusters := ["orders"]; SkippedClusters := []; FailedClusters := [] |}.
Proof. reflexivity. Qed.

Example first_fetch_fails_run :
  fst (handler scripted stop_event (init first_fetch_fails))
  = Ok {| ProcessedClusters := ["batch"]; SkippedClusters := [];
          FailedClusters := ["orders"] |}.
Proof. reflexivity. Qed.

(** C8. [handler] ends with a [ValueError] before any call, in the state it
    was started in, exactly when the lowered Action is neither "start" nor
    "stop"; the error is then the one that names the Action.  On a valid
    Action the first thing it does is create the client, and once the client
    exists and discovery has returned descriptors that carry the identifier
    and ARN keys, it returns a report whatever the service answers to the
    tag lookups, status fetches and start/stop invocations. *)
Theorem invalid_action_is_the_only_abort {W : Type} (R : Remote W)
    (event : gmap string string) (st : state W) :
  (¬ valid_action (requested_action event)
   ↔ ∃ msg, handler R event st = (Raise (ValueError msg), st))
  ∧ (¬ valid_action (requested_action event) →
     handler R event st
     = (Raise (ValueError ("Invalid Action '" +:+ str_get event "Action"
                             +:+ "'. Must be 'Start' or 'Stop'.")), st))
  ∧ (valid_action (requested_action event) →
     ∃ tail, calls (snd (handler R event st)) = calls st ++ CallClient :: tail)
  ∧ (valid_action (requested_action event) →
     ∀ st_c all_clusters st_d,
       client R st = (Ok tt, st_c) →
       discover R st_c = (Ok all_clusters, st_d) →
       Forall well_formed all_clusters →
       ∃ report st', handler R event st = (Ok report, st')).
Proof.
  split; [split |]; [| | split; [| split]].
  - intros Hinvalid. eexists. by apply handler_invalid.
  - intros [msg Hraise] Hvalid.
    destruct (handler_first_call R event st Hvalid) as [tail Htail].
    rewrite Hraise in Htail. simpl in Htail.
    rewrite <- (app_nil_r (calls st)) in Htail at 1.
    by apply app_inv_head in Htail.
  - apply handler_invalid.
  - apply handler_first_call.
  - intros Hvalid st_c all_clusters st_d Hclient Hdiscover Hwf.
    rewrite (handler_valid R event Hvalid). unfold bind.
    rewrite Hclient, Hdiscover.
    destruct (select_eligible_total R (requested_tag_key event) all_clusters Hwf [] st_d)
      as (eligible & st_e & ->).
    destruct (process_eligible_spec R (requested_action event) eligible [] [] [] st_e)
      as (report & st' & _ & _ & _ & -> & _).
    by exists report, st'.
Qed.

Lemma invalid_action_is_the_only_abort_witness :
  handler scripted pause_event (init three_clusters)
  = (Raise (ValueError "Invalid Action 'pause'. Must be 'Start' or 'Stop'."),
     init three_clusters)
  ∧ ∃ report st', handler scripted stop_event (init first_fetch_fails) = (Ok report, st').
Proof.
  split.
  - refine (proj1 (proj2 (invalid_action_is_the_only_abort scripted pause_event
                            (init three_clusters))) _).
    intros [H | H]; discriminate H.
  - refine (proj2 (proj2 (proj2 (invalid_action_is_the_only_abort scripted stop_event
                                   (init first_fetch_fails)))) _ _ _ _ _ _ _).
    + by right.
    + reflexivity.
    + reflexivity.
    + repeat constructor; by eexists.
Defined.

(** C9. A run of [handler] that returns has discovered some clusters,
    selected the eligible identifiers among them and processed these, and
    its report is a partition of the eligible identifiers:
    - the three lists together are a rearrangement of the eligible list, so
      with distinct discovered identifiers every eligible identifier is in
      exactly one list, once;
    - every listed identifier is that of a discovered cluster that passed
      the filter and the tag gate; conversely every discovered cluster that
      passes the filter and the tag gate when its turn comes is in one of the
      three lists, however many were selected before it; and (identifiers
      being distinct) a cluster that the filter or the tag gate turned away
      is in no list;
    - each eligible identifier is in the list named by the outcome of its own
      [process_cluster], whatever the outcomes before it;
    - [process_cluster] never raises: a fault of the status fetch or of the
      execution gives outcome "failed" with the text of the fault. *)
Theorem report_partitions_eligible {W : Type} (R : Remote W)
    (event : gmap string string) (st st' : state W) (report : report)
    (Hrun : handler R event st = (Ok report, st')) :
  ∃ all_clusters eligible st_d st_e,
    discover R (snd (client R st)) = (Ok all_clusters, st_d)
    ∧ select_eligible R (requested_tag_key event) all_clusters [] st_d
      = (Ok eligible, st_e)
    ∧ process_eligible R (requested_action event) eligible [] [] [] st_e
      = (Ok report, st')
    ∧ listed report ≡ₚ eligible
    ∧ (NoDup (identifiers all_clusters) → NoDup (listed report))
    ∧ (∀ cluster_id, cluster_id ∈ listed report →
         ∃ c : cluster, c ∈ all_clusters
                        ∧ c !! "DBClusterIdentifier" = Some cluster_id
                        ∧ let_through R (requested_tag_key event) c)
    ∧ (NoDup (identifiers all_clusters) →
       ∀ before (c : cluster) after cluster_id el_b st_b,
         all_clusters = before ++ c :: after →
         c !! "DBClusterIdentifier" = Some cluster_id →
         select_eligible R (requested_tag_key event) before [] st_d = (Ok el_b, st_b) →
         rejected R (requested_tag_key event) c st_b →
         cluster_id ∉ listed report)
    ∧ (∀ before (c : cluster) after cluster_id el_b st_b,
         all_clusters = before ++ c :: after →
         c !! "DBClusterIdentifier" = Some cluster_id →
         select_eligible R (requested_tag_key event) before [] st_d = (Ok el_b, st_b) →
         passes R (requested_tag_key event) c st_b →
         cluster_id ∈ eligible ∧ cluster_id ∈ listed report)
    ∧ (∀ before cluster_id after rep_b st_b result st_c outcome,
         eligible = before ++ cluster_id :: after →
         process_eligible R (requested_action event) before [] [] [] st_e
         = (Ok rep_b, st_b) →
         process_cluster R cluster_id (requested_action event) st_b = (Ok result, st_c) →
         result !! "outcome" = Some outcome →
         cluster_id ∈ list_of_outcome outcome report)
    ∧ (∀ cluster_id st0,
         (∃ result st1,
            process_cluster R cluster_id (requested_action event) st0 = (Ok result, st1))
         ∧ (∀ e st1,
              fetch R cluster_id st0 = (Raise e, st1) →
              ∃ result : gmap string string,
                process_cluster R cluster_id (requested_action event) st0
                = (Ok result, st1)
                ∧ result !! "outcome" = Some "failed"
                ∧ result !! "message" = Some (str_exn e))
         ∧ (∀ current_status st1 e st2,
              fetch R cluster_id st0 = (Ok current_status, st1) →
              (requested_action event = ACTION_START ∧ current_status = STATUS_STOPPED)
              ∨ (requested_action event = ACTION_STOP
                 ∧ current_status = STATUS_AVAILABLE) →
              perform_action_with_retry R cluster_id (requested_action event) st1
              = (Raise e, st2) →
              ∃ result : gmap string string,
                process_cluster R cluster_id (requested_action event) st0
                = (Ok result, st2)
                ∧ result !! "outcome" = Some "failed"
                ∧ result !! "message" = Some (str_exn e))).
Proof.
  destruct (handler_returns R event st report st' Hrun)
    as (Hvalid & st_c & all_clusters & st_d & eligible & st_e
        & Hclient & Hdiscover & Hselect & Hprocess).
  exists all_clusters, eligible, st_d, st_e.
  assert (Hperm : listed report ≡ₚ eligible).
  { destruct (process_eligible_spec R (requested_action event) eligible [] [] [] st_e)
      as (r & s & p' & s' & f' & Heq & Hp & Hs & Hf & Hperm).
    rewrite Hprocess in Heq. injection Heq as <- <-.
    unfold listed. by rewrite Hp, Hs, Hf. }
  split; [by rewrite Hclient |]. split; [exact Hselect |]. split; [exact Hprocess |].
  split; [exact Hperm |]. split; [| split; [| split; [| split; [| split]]]].
  - intros Hnodup. rewrite Hperm. by eapply select_eligible_NoDup.
  - intros cluster_id Hin. rewrite Hperm in Hin.
    destruct (select_eligible_spec R _ _ _ _ _ _ Hselect) as (added & -> & _ & Hselected).
    destruct (Hselected cluster_id Hin)
      as (c & arn & st_a & st_b & Hc & Hid & Hstoppable & Harn & Htag).
    exists c. split; [done |]. split; [done |]. split; [done |]. eauto.
  - intros Hnodup before c after cluster_id el_b st_b -> Hid Hbefore Hrejected.
    rewrite Hperm. by eapply select_eligible_rejects.
  - intros before c after cluster_id el_b st_b -> Hid Hbefore
      (Hstoppable & arn & st_t & Harn & Htag).
    assert (Hin : cluster_id ∈ eligible).
    { rewrite select_eligible_app in Hselect. unfold bind in Hselect.
      rewrite Hbefore in Hselect.
      rewrite (select_eligible_selects R _ _ _ _ _ _ _ _ Hid Hstoppable Harn Htag)
        in Hselect.
      destruct (select_eligible_spec R _ _ _ _ _ _ Hselect) as (added & -> & _).
      rewrite !elem_of_app. left. right. apply list_elem_of_singleton. reflexivity. }
    split; [exact Hin |]. by rewrite Hperm.
  - intros before cluster_id after rep_b st_b result st_c0 outcome -> Hbefore Hone Houtcome.
    by eapply process_eligible_places.
  - intros cluster_id st0. split; [| split].
    + destruct (process_cluster_total R cluster_id (requested_action event) st0)
        as (result & st1 & Hone & _). eauto.
    + intros e st1. apply process_cluster_fetch_fault.
    + intros current_status st1 e st2. apply process_cluster_execute_fault.
Qed.

Lemma report_partitions_eligible_witness :
  ∃ eligible,
    listed {| ProcessedClusters := ["batch"]; SkippedClusters := [];
              FailedClusters := ["orders"] |} ≡ₚ eligible
    ∧ fst (select_eligible scripted "Schedule" [aurora_cluster; untagged_cluster] []
             {| world := [schedule_tag; schedule_tag; AClusters (Raise timeout_error);
                          in_status "available"; AUnit (Ok tt); in_status "stopping"];
                calls := [CallClient; CallPaginate] |})
      = Ok eligible
    ∧ "batch" ∈ eligible
    ∧ "batch" ∈ listed {| ProcessedClusters := ["batch"]; SkippedClusters := [];
                          FailedClusters := ["orders"] |}.
Proof.
  destruct (report_partitions_eligible scripted stop_event (init first_fetch_fails)
              (snd (handler scripted stop_event (init first_fetch_fails)))
              {| ProcessedClusters := ["batch"]; SkippedClusters := [];
                 FailedClusters := ["orders"] |} eq_refl)
    as (all_clusters & eligible & st_d & st_e & Hdiscover & Hselect & _ & Hperm
        & _ & _ & _ & Hpasses & _).
  exists eligible. split; [exact Hperm |].
  injection Hdiscover as <- <-.
  change (requested_tag_key stop_event) with "Schedule" in Hselect.
  split; [exact (f_equal fst Hselect) |].
  refine (Hpasses [aurora_cluster] untagged_cluster [] "batch" ["orders"] _
            eq_refl eq_refl eq_refl _).
  split; [reflexivity |]. exists "arn:batch". eexists. split; reflexivity.
Defined.

(** * Further properties of the script *)

(** ** Eligibility filter, both directions *)

Lemma prefix_append (p s : string) :
  String.prefix p s = true ↔ ∃ rest, s = p +:+ rest.
Proof.
  revert s. induction p as [| a p IH]; intros s.
  - split; [intros _; by exists s | intros _; by destruct s].
  - destruct s as [| b s]; simpl.
    + split; [done | intros [rest H]; discriminate H].
    + destruct (ascii_dec a b) as [-> | Hne].
      * rewrite IH. split; intros [rest H]; exists rest; [by rewrite H | by injection H].
      * split; [done | intros [rest H]; injection H; congruence].
Qed.

(** X1. [is_multi_az_db_cluster] answers [True] exactly for a descriptor that
    has an Engine beginning with "mysql" or "postgres" (in this letter case)
    and has the key DBClusterInstanceClass; a descriptor without Engine, or
    with another engine such as "aurora-mysql", is never one, marker or not. *)
Theorem is_multi_az_db_cluster_iff (c : cluster) :
  is_multi_az_db_cluster c = true
  ↔ ∃ engine rest,
      c !! "Engine" = Some engine
      ∧ (engine = "mysql" +:+ rest ∨ engine = "postgres" +:+ rest)
      ∧ is_Some (c !! "DBClusterInstanceClass").
Proof.
  unfold is_multi_az_db_cluster, dict_get, dict_contains, startswith.
  rewrite andb_true_iff, bool_decide_eq_true. simpl existsb.
  rewrite orb_false_r, orb_true_iff, !prefix_append.
  split.
  - intros [Hprefix Hmarker]. destruct (c !! "Engine") as [engine |] eqn:Hengine.
    + destruct Hprefix as [[rest H] | [rest H]]; exists engine, rest; tauto.
    + destruct Hprefix as [[rest H] | [rest H]]; discriminate H.
  - intros (engine & rest & -> & Hprefix & Hmarker). split; [| done].
    destruct Hprefix as [H | H]; [left | right]; by exists rest.
Qed.

Example aurora_with_marker_is_not_multi_az :
  is_multi_az_db_cluster (<[ "DBClusterInstanceClass" := "db.r5.large" ]> aurora_cluster)
  = false.
Proof. reflexivity. Qed.

(** X2. [is_stoppable_cluster] rejects for two reasons only: it answers
    [True] exactly when the identifier is present, the lowered engine mode
    ("provisioned" when absent) is none of the four unstoppable modes and the
    descriptor is not a Multi-AZ DB cluster.  It raises exactly when the
    identifier is missing, and then it is the [KeyError] of that key, also
    for a descriptor that one of the two tests would reject. *)
Theorem is_stoppable_cluster_iff (c : cluster) :
  (is_stoppable_cluster c = Ok true
   ↔ is_Some (c !! "DBClusterIdentifier")
     ∧ (lower (dict_get c "EngineMode" "provisioned") ∉ UNSTOPPABLE_ENGINE_MODES)
     ∧ is_multi_az_db_cluster c = false)
  ∧ (∀ e, is_stoppable_cluster c = Raise e
          ↔ c !! "DBClusterIdentifier" = None ∧ e = KeyError "DBClusterIdentifier").
Proof.
  unfold is_stoppable_cluster, dict_item.
  destruct (c !! "DBClusterIdentifier") as [cluster_id |].
  - split.
    + case_bool_decide as Hmode.
      * split; [done | tauto].
      * destruct (is_multi_az_db_cluster c).
        -- split; [done | intros (_ & _ & H); discriminate H].
        -- split; [eauto | done].
    + intros e. split; [| intros [H _]; discriminate H].
      by repeat case_match.
  - split.
    + split; [done | intros ([? H] & _); discriminate H].
    + intros e. split; [by intros [= <-] | by intros [_ ->]].
Qed.

(** ** Tag gate: the order of the tags *)

(** X3. [has_schedule_tag] looks at the tags in order and stops at the first
    decision.  After tags that all have another key, a tag with the given
    key gives [True] whatever follows it, also tags without a Key; a tag
    without a Key gives [False] whatever follows it, also a tag with the
    given key. *)
Theorem has_schedule_tag_first_decides {W : Type} (R : Remote W)
    (cluster_arn tag_key : string) (st : state W) (w1 : W)
    (response : gmap string (list tag)) (before after : list tag) (t : tag)
    (Hlookup : list_tags_for_resource R cluster_arn (world st) = (Ok response, w1))
    (Htags : response !! "TagList" = Some (before ++ t :: after))
    (Hbefore : Forall (λ t' : tag, ∃ k, t' !! "Key" = Some k ∧ k ≠ tag_key) before) :
  (t !! "Key" = Some tag_key →
   fst (has_schedule_tag R cluster_arn tag_key st) = Ok true)
  ∧ (t !! "Key" = None →
     fst (has_schedule_tag R cluster_arn tag_key st) = Ok false).
Proof.
  assert (Hskip : any_key_is (before ++ t :: after) tag_key
                  = any_key_is (t :: after) tag_key).
  { clear Htags. set (decided := any_key_is (t :: after) tag_key).
    induction Hbefore as [| t' before' (k & Hk & Hne) _ IH]; [done |].
    simpl. unfold dict_item. rewrite Hk.
    by rewrite (proj2 (String.eqb_neq k tag_key) Hne). }
  unfold has_schedule_tag, try_except, bind, list_tags, remote, lift, ret, dict_item.
  rewrite Hlookup, Htags, Hskip. simpl. unfold dict_item.
  split; intros ->; [by rewrite String.eqb_refl | done].
Qed.

Lemma has_schedule_tag_first_decides_witness :
  fst (has_schedule_tag scripted "arn:orders" "Schedule" (init [ATags (Ok orphan_after)]))
  = Ok true
  ∧ fst (has_schedule_tag scripted "arn:orders" "Schedule"
           (init [ATags (Ok orphan_before)]))
    = Ok false.
Proof.
  split.
  - refine (proj1 (has_schedule_tag_first_decides scripted "arn:orders" "Schedule"
                     (init [ATags (Ok orphan_after)]) [] orphan_after
                     [ {[ "Key" := "Owner" ]} ] [ {[ "Value" := "orphan" ]} ]
                     {[ "Key" := "Schedule" ]} eq_refl eq_refl _) eq_refl).
    constructor; [| constructor]. exists "Owner". split; [reflexivity | discriminate].
  - refine (proj2 (has_schedule_tag_first_decides scripted "arn:orders" "Schedule"
                     (init [ATags (Ok orphan_before)]) [] orphan_before
                     [ {[ "Key" := "Owner" ]} ] [ {[ "Key" := "Schedule" ]} ]
                     {[ "Value" := "orphan" ]} eq_refl eq_refl _) eq_refl).
    constructor; [| constructor]. exists "Owner". split; [reflexivity | discriminate].
Defined.

(** ** Retrying executor: what a run looks like from outside *)

Section RetryShape.

Context {W : Type} (R : Remote W).

Lemma attempt_shape action cluster_id st :
  ∃ tail, calls (snd (attempt R (api_call R action) cluster_id st)) = calls st ++ tail
          ∧ attempt_log action cluster_id tail.
Proof.
  unfold attempt, bind, attempt_log.
  pose proof (api_call_calls R action cluster_id st) as Hc.
  destruct (api_call R action cluster_id st) as [[[] | e] st1]; simpl in Hc.
  - rewrite sleep_run.
    pose proof (remote_calls (CallDescribe cluster_id)
                  (describe_db_clusters R cluster_id) (slept R 1 st1)) as Hd.
    fold (describe R cluster_id) in Hd. rewrite slept_calls in Hd.
    exists [invocation action cluster_id; CallSleep 1; CallDescribe cluster_id].
    split; [| by right].
    destruct (describe R cluster_id (slept R 1 st1)) as [[response | e] st2];
      simpl in Hd; [unfold lift, ret; destruct (first_status response) |]; log_eq.
  - exists [invocation action cluster_id]. split; [exact Hc | by left].
Qed.

Lemma perform_shape cluster_id action st :
  ∃ tail, calls (snd (perform_action_with_retry R cluster_id action st))
          = calls st ++ tail
          ∧ retry_log action cluster_id tail.
Proof.
  rewrite perform_unrolled. cbv zeta. unfold retry_log.
  destruct (attempt_shape action cluster_id st) as (t1 & H1 & L1).
  destruct (attempt R (api_call R action) cluster_id st) as [[s | e1] st1];
    simpl in H1.
  { exists t1. split; [done |]. exists t1, t1, t1. tauto. }
  destruct (is_invalid_state e1).
  { exists t1. split; [done |]. exists t1, t1, t1. tauto. }
  destruct (attempt_shape action cluster_id (slept R 5 st1)) as (t2 & H2 & L2).
  rewrite slept_calls, H1, <- !app_assoc in H2.
  destruct (attempt R (api_call R action) cluster_id (slept R 5 st1))
    as [[s | e2] st2]; simpl in H2.
  { exists (t1 ++ CallSleep 5 :: t2). split; [done |]. exists t1, t2, t2. tauto. }
  destruct (is_invalid_state e2).
  { exists (t1 ++ CallSleep 5 :: t2). split; [done |]. exists t1, t2, t2. tauto. }
  destruct (attempt_shape action cluster_id (slept R 5 st2)) as (t3 & H3 & L3).
  rewrite slept_calls, H2, <- !app_assoc in H3. simpl in H3.
  exists (t1 ++ CallSleep 5 :: t2 ++ CallSleep 5 :: t3).
  split; [| exists t1, t2, t3; tauto].
  by destruct (attempt R (api_call R action) cluster_id (slept R 5 st2)) as [[s | e3] st3].
Qed.

(** What the shape implies for counts and for the alphabet of the log. *)
Lemma retry_log_bounds action cluster_id t :
  retry_log action cluster_id t →
  (1 ≤ invocations t ≤ 3)%nat
  ∧ 0 ≤ sleep_seconds t ≤ 13
  ∧ Forall (λ c, c = invocation action cluster_id ∨ c = CallDescribe cluster_id
                 ∨ c = CallSleep 1 ∨ c = CallSleep 5) t.
Proof.
  unfold retry_log, attempt_log, invocation.
  destruct (String.eqb action ACTION_START);
    intros (t1 & t2 & t3 & [-> | ->] & [-> | ->] & [-> | ->] & [-> | [-> | ->]]);
    simpl;
    (split; [lia |]); (split; [lia |]);
    repeat (apply List.Forall_cons; [auto 6 |]); apply List.Forall_nil.
Qed.

End RetryShape.

(** X4. A fault other than [InvalidDBClusterStateFault] on the first
    invocation, followed by a second invocation that returns and a status
    read that gives a status: [perform_action_with_retry] returns that
    status after exactly two invocations, with the delay of 5 between them
    and the pause of 1 before the one status read. *)
Theorem transient_fault_then_success {W : Type} (R : Remote W)
    (cluster_id action new_status : string) (st st1 st2 st3 : state W) (e1 : exn)
    (response : gmap string (list cluster))
    (Hfirst : api_call R action cluster_id st = (Raise e1, st1))
    (Htransient : is_invalid_state e1 = false)
    (Hsecond : api_call R action cluster_id (slept R 5 st1) = (Ok tt, st2))
    (Hread : describe R cluster_id (slept R 1 st2) = (Ok response, st3))
    (Hstatus : first_status response = Ok new_status) :
  perform_action_with_retry R cluster_id action st = (Ok new_status, st3)
  ∧ calls st3
    = calls st ++ [invocation action cluster_id; CallSleep 5;
                   invocation action cluster_id; CallSleep 1; CallDescribe cluster_id].
Proof.
  split.
  - rewrite perform_unrolled. cbv zeta.
    rewrite (attempt_invocation_raises R _ _ _ _ _ Hfirst), Htransient.
    unfold attempt at 1. unfold bind, lift, ret.
    by rewrite Hsecond, sleep_run, Hread, Hstatus.
  - pose proof (api_call_calls R action cluster_id st) as H1.
    pose proof (api_call_calls R action cluster_id (slept R 5 st1)) as H2.
    pose proof (remote_calls (CallDescribe cluster_id)
                  (describe_db_clusters R cluster_id) (slept R 1 st2)) as H3.
    fold (describe R cluster_id) in H3.
    rewrite Hfirst in H1. rewrite Hsecond, slept_calls in H2.
    rewrite Hread, slept_calls in H3. simpl in H1, H2, H3.
    rewrite H3, H2, H1, <- !app_assoc. reflexivity.
Qed.

Lemma transient_fault_then_success_witness :
  perform_action_with_retry scripted "orders" "start" (init retry_then_success)
  = (Ok "starting",
     {| world := [];
        calls := [CallStart "orders"; CallSleep 5; CallStart "orders"; CallSleep 1;
                  CallDescribe "orders"] |}).
Proof.
  refine (proj1 (transient_fault_then_success scripted "orders" "start" "starting"
                   (init retry_then_success) _ _ _ throttled
                   {[ "DBClusters" := [ {[ "Status" := "starting" ]} ] ]}
                   eq_refl eq_refl eq_refl eq_refl eq_refl)).
Defined.

(** X5. [InvalidDBClusterStateFault] is not retried on a later attempt
    either: raised by the second invocation, after a first one that failed
    with another fault, it is raised at once, the log showing two
    invocations with one delay between them and nothing after. *)
Theorem invalid_state_after_transient_not_retried {W : Type} (R : Remote W)
    (cluster_id action msg : string) (st st1 st2 : state W) (e1 : exn)
    (Hfirst : api_call R action cluster_id st = (Raise e1, st1))
    (Htransient : is_invalid_state e1 = false)
    (Hsecond : api_call R action cluster_id (slept R 5 st1)
               = (Raise (InvalidDBClusterStateFault msg), st2)) :
  perform_action_with_retry R cluster_id action st
  = (Raise (InvalidDBClusterStateFault msg), st2)
  ∧ calls st2
    = calls st ++ [invocation action cluster_id; CallSleep 5;
                   invocation action cluster_id].
Proof.
  split.
  - rewrite perform_unrolled. cbv zeta.
    rewrite (attempt_invocation_raises R _ _ _ _ _ Hfirst), Htransient.
    by rewrite (attempt_invocation_raises R _ _ _ _ _ Hsecond).
  - pose proof (api_call_calls R action cluster_id st) as H1.
    pose proof (api_call_calls R action cluster_id (slept R 5 st1)) as H2.
    rewrite Hfirst in H1. rewrite Hsecond, slept_calls in H2. simpl in H1, H2.
    rewrite H2, H1, <- !app_assoc. reflexivity.
Qed.

Lemma invalid_state_after_transient_not_retried_witness :
  perform_action_with_retry scripted "orders" "start" (init lost_race_on_retry)
  = (Raise (InvalidDBClusterStateFault "cluster is not stopped"),
     {| world := [AUnit (Ok tt)];
        calls := [CallStart "orders"; CallSleep 5; CallStart "orders"] |}).
Proof.
  refine (proj1 (invalid_state_after_transient_not_retried scripted "orders" "start"
                   "cluster is not stopped" (init lost_race_on_retry) _ _ timeout_error
                   eq_refl eq_refl eq_refl)).
Defined.

(** X6. Whatever the service answers, one run of [perform_action_with_retry]
    makes at least one and at most three start/stop invocations and sleeps
    at most 13 seconds in all (three pauses of 1 and two delays of 5). *)
Theorem perform_action_with_retry_bounded {W : Type} (R : Remote W)
    (cluster_id action : string) (st : state W) :
  ∃ tail,
    calls (snd (perform_action_with_retry R cluster_id action st)) = calls st ++ tail
    ∧ (1 ≤ invocations tail ≤ 3)%nat
    ∧ 0 ≤ sleep_seconds tail ≤ 13.
Proof.
  destruct (perform_shape R cluster_id action st) as (tail & Hcalls & Hshape).
  destruct (retry_log_bounds action cluster_id tail Hshape) as (Hinv & Hsleep & _).
  by exists tail.
Qed.

(** X7. Whatever the service answers, [perform_action_with_retry] calls
    nothing but the one operation that the action selects (start for "start",
    stop for every other action) on the given cluster, the status read of
    that cluster, and sleeps of 1 and 5: no other cluster is touched and the
    opposite operation is never called. *)
Theorem perform_action_with_retry_calls {W : Type} (R : Remote W)
    (cluster_id action : string) (st : state W) :
  ∃ tail,
    calls (snd (perform_action_with_retry R cluster_id action st)) = calls st ++ tail
    ∧ Forall (λ c, c = invocation action cluster_id ∨ c = CallDescribe cluster_id
                   ∨ c = CallSleep 1 ∨ c = CallSleep 5) tail
    ∧ (action = ACTION_START → ∀ other, CallStop other ∉ tail)
    ∧ (action ≠ ACTION_START → ∀ other, CallStart other ∉ tail).
Proof.
  destruct (perform_shape R cluster_id action st) as (tail & Hcalls & Hshape).
  destruct (retry_log_bounds action cluster_id tail Hshape) as (_ & _ & Halphabet).
  exists tail. split; [done |]. split; [done |].
  rewrite Forall_forall in Halphabet. unfold invocation in Halphabet.
  split.
  - intros -> other Hin. apply Halphabet in Hin. simpl in Hin.
    destruct Hin as [H | [H | [H | H]]]; discriminate H.
  - intros Hne other Hin. apply Halphabet in Hin.
    rewrite (proj2 (String.eqb_neq _ _) Hne) in Hin.
    destruct Hin as [H | [H | [H | H]]]; discriminate H.
Qed.

(** X8. When [perform_action_with_retry] raises, the exception is the one
    that its last attempt raised and nothing was called after that attempt;
    in particular the [raise last_exception] after the loop never meets
    [None]. *)
Theorem perform_raises_fault_of_last_attempt {W : Type} (R : Remote W)
    (cluster_id action : string) (st st' : state W) (e : exn)
    (Hraises : perform_action_with_retry R cluster_id action st = (Raise e, st')) :
  ∃ st_a, attempt R (api_call R action) cluster_id st_a = (Raise e, st').
Proof.
  rewrite perform_unrolled in Hraises. cbv zeta in Hraises.
  destruct (attempt R (api_call R action) cluster_id st) as [[s | e1] st1] eqn:H1;
    [done |].
  destruct (is_invalid_state e1); [injection Hraises as <- <-; eauto |].
  destruct (attempt R (api_call R action) cluster_id (slept R 5 st1))
    as [[s | e2] st2] eqn:H2; [done |].
  destruct (is_invalid_state e2); [injection Hraises as <- <-; eauto |].
  destruct (attempt R (api_call R action) cluster_id (slept R 5 st2))
    as [[s | e3] st3] eqn:H3; [done |].
  injection Hraises as <- <-. eauto.
Qed.

Lemma perform_raises_fault_of_last_attempt_witness :
  ∃ st_a, attempt scripted (api_call scripted "start") "orders" st_a
          = (Raise (InvalidDBClusterStateFault "cluster is not stopped"),
             {| world := [AUnit (Ok tt)];
                calls := [CallStart "orders"; CallSleep 5; CallStart "orders"] |}).
Proof.
  exact (perform_raises_fault_of_last_attempt scripted "orders" "start"
           (init lost_race_on_retry) _ _ eq_refl).
Defined.

(** ** One cluster: what [process_cluster] does around the guard *)

Section ProcessShape.

Context {W : Type} (R : Remote W).

Lemma new_result_dom cluster_id :
  dom (new_result cluster_id)
  = ({[ "cluster_id"; "outcome"; "message"; "status" ]} : gset string).
Proof. reflexivity. Qed.

Lemma dom_overwrite (result : gmap string string) (key value : string) :
  key ∈ dom result → dom (<[ key := value ]> result) = dom result.
Proof.
  intros Hin. rewrite dom_insert_L. apply subseteq_union_1_L.
  by apply singleton_subseteq_l.
Qed.

(** The log of one [process_cluster] and the outcome that goes with it: the
    status fetch alone for a skip or a failed fetch, the fetch and a run of
    the retry loop for a processed cluster or a failed execution. *)
Lemma process_cluster_log cluster_id action st :
  ∃ result st1 outcome tail,
    process_cluster R cluster_id action st = (Ok result, st1)
    ∧ result !! "outcome" = Some outcome
    ∧ is_Some (result !! "message")
    ∧ calls st1 = calls st ++ CallDescribe cluster_id :: tail
    ∧ ((tail = [] ∧ (outcome = "skipped" ∨ outcome = "failed"))
       ∨ (retry_log action cluster_id tail
          ∧ (outcome = "processed" ∨ outcome = "failed"))).
Proof.
  unfold process_cluster, bind, lift, describe.
  pose proof (remote_calls (CallDescribe cluster_id)
                (describe_db_clusters R cluster_id) st) as Hd.
  destruct (remote (CallDescribe cluster_id) (describe_db_clusters R cluster_id) st)
    as [[response | exc] st1]; simpl in Hd.
  - destruct (first_status response) as [current_status | exc].
    + destruct (guard action current_status _) as [skipped |] eqn:Hguard.
      * apply guard_shape in Hguard as [message ->].
        eexists _, _, "skipped", []. split; [reflexivity |].
        split; [by simplify_map_eq |]. split; [by simplify_map_eq |].
        split; [done |]. left. auto.
      * destruct (perform_shape R cluster_id action st1) as (tail & Ht & Hshape).
        destruct (perform_action_with_retry R cluster_id action st1)
          as [[new_status | exc] st2]; simpl in Ht.
        -- eexists _, _, "processed", tail. split; [reflexivity |].
           split; [by simplify_map_eq |]. split; [by simplify_map_eq |].
           split; [log_eq |]. right. auto.
        -- eexists _, _, "failed", tail. split; [reflexivity |]. unfold on_exception.
           split; [by simplify_map_eq |]. split; [by simplify_map_eq |].
           split; [log_eq |]. right. auto.
    + eexists _, _, "failed", []. split; [reflexivity |]. unfold on_exception.
      split; [by simplify_map_eq |]. split; [by simplify_map_eq |].
      split; [done |]. left. auto.
  - eexists _, _, "failed", []. split; [reflexivity |]. unfold on_exception.
    split; [by simplify_map_eq |]. split; [by simplify_map_eq |].
    split; [done |]. left. auto.
Qed.

End ProcessShape.

(** X9. The guard of [process_cluster] covers the two actions "start" and
    "stop" only.  For any other action string, whatever status was fetched,
    [process_cluster] goes on to [perform_action_with_retry], and the
    operation invoked is the stop. *)
Theorem unvalidated_action_bypasses_guard {W : Type} (R : Remote W)
    (cluster_id action current_status : string) (st st1 : state W)
    (response : gmap string (list cluster))
    (Hnot_start : action ≠ ACTION_START)
    (Hnot_stop : action ≠ ACTION_STOP)
    (Hfetch : describe R cluster_id st = (Ok response, st1))
    (Hstatus : first_status response = Ok current_status) :
  proceeds R cluster_id action st st1
  ∧ invocation action cluster_id = CallStop cluster_id.
Proof.
  split.
  - apply (guard_none_proceeds R _ _ _ _ _ _ Hfetch Hstatus).
    unfold guard.
    by rewrite (proj2 (String.eqb_neq _ _) Hnot_start),
               (proj2 (String.eqb_neq _ _) Hnot_stop).
  - unfold invocation. by rewrite (proj2 (String.eqb_neq _ _) Hnot_start).
Qed.

Lemma unvalidated_action_bypasses_guard_witness :
  proceeds scripted "orders" "Start"
    (init [in_status "stopping"; AUnit (Ok tt); in_status "stopping"])
    {| world := [AUnit (Ok tt); in_status "stopping"];
       calls := [CallDescribe "orders"] |}
  ∧ invocation "Start" "orders" = CallStop "orders".
Proof.
  refine (unvalidated_action_bypasses_guard scripted "orders" "Start" "stopping"
            (init [in_status "stopping"; AUnit (Ok tt); in_status "stopping"])
            {| world := [AUnit (Ok tt); in_status "stopping"];
               calls := [CallDescribe "orders"] |}
            {[ "DBClusters" := [ {[ "Status" := "stopping" ]} ] ]} _ _ eq_refl eq_refl);
    discriminate.
Defined.

(** X10. [process_cluster] always returns a dictionary with exactly the four
    keys cluster_id, outcome, message and status; cluster_id is the
    identifier it was called with and outcome is one of "processed",
    "skipped", "failed".  So the reads [result["outcome"]] and
    [result["message"]] of the handler cannot raise. *)
Theorem process_cluster_result_shape {W : Type} (R : Remote W)
    (cluster_id action : string) (st : state W) :
  ∃ result st1,
    process_cluster R cluster_id action st = (Ok result, st1)
    ∧ dom result = ({[ "cluster_id"; "outcome"; "message"; "status" ]} : gset string)
    ∧ result !! "cluster_id" = Some cluster_id
    ∧ (result !! "outcome" = Some "processed"
       ∨ result !! "outcome" = Some "skipped"
       ∨ result !! "outcome" = Some "failed").
Proof.
  assert (Hkeys : ∀ (result : gmap string string) key value,
            dom result = ({[ "cluster_id"; "outcome"; "message"; "status" ]} : gset string) →
            key = "outcome" ∨ key = "message" ∨ key = "status" →
            dom (<[ key := value ]> result)
            = ({[ "cluster_id"; "outcome"; "message"; "status" ]} : gset string)).
  { intros result key value Hdom Hkey. rewrite dom_overwrite; [done |].
    rewrite Hdom. destruct Hkey as [-> | [-> | ->]]; set_solver. }
  pose proof (new_result_dom cluster_id) as Hnew.
  unfold process_cluster, bind, lift.
  destruct (describe R cluster_id st) as [[response | exc] st1].
  - destruct (first_status response) as [current_status | exc].
    + destruct (guard action current_status _) as [skipped |] eqn:Hguard.
      * apply guard_shape in Hguard as [message ->].
        eexists _, _. split; [reflexivity |].
        split; [auto 10 |]. split; [by simplify_map_eq |]. right; left.
        by simplify_map_eq.
      * destruct (perform_action_with_retry R cluster_id action st1)
          as [[new_status | exc] st2]; eexists _, _; (split; [reflexivity |]);
          unfold on_exception; (split; [auto 10 |]); (split; [by simplify_map_eq |]).
        -- left. by simplify_map_eq.
        -- right; right. by simplify_map_eq.
    + eexists _, _. split; [reflexivity |]. unfold on_exception.
      split; [auto 10 |]. split; [by simplify_map_eq |]. right; right.
      by simplify_map_eq.
  - eexists _, _. split; [reflexivity |]. unfold on_exception.
    split; [auto 10 |]. split; [by simplify_map_eq |]. right; right.
    by simplify_map_eq.
Qed.

(** X11. A status response that [response["DBClusters"][0]["Status"]] cannot
    read is a failed outcome, not an abort and not an action: without the
    key DBClusters, with an empty list, or with a first cluster without
    Status, [process_cluster] returns right after the fetch with outcome
    "failed", the text of the [KeyError] or [IndexError] as message and the
    status left empty. *)
Theorem unreadable_status_is_failed {W : Type} (R : Remote W)
    (cluster_id action : string) (st st1 : state W)
    (response : gmap string (list cluster))
    (Hfetch : describe R cluster_id st = (Ok response, st1)) :
  let failed_with (message : string) :=
    ∃ result : gmap string string,
      process_cluster R cluster_id action st = (Ok result, st1)
      ∧ result !! "outcome" = Some "failed"
      ∧ result !! "message" = Some message
      ∧ result !! "status" = Some EmptyString in
  (response !! "DBClusters" = None → failed_with "'DBClusters'")
  ∧ (response !! "DBClusters" = Some [] → failed_with "list index out of range")
  ∧ (∀ (c : cluster) rest,
       response !! "DBClusters" = Some (c :: rest) →
       c !! "Status" = None →
       failed_with "'Status'").
Proof.
  assert (Hfails : ∀ e, first_status response = Raise e →
            ∃ result : gmap string string,
              process_cluster R cluster_id action st = (Ok result, st1)
              ∧ result !! "outcome" = Some "failed"
              ∧ result !! "message" = Some (str_exn e)
              ∧ result !! "status" = Some EmptyString).
  { intros e He. unfold process_cluster, bind, lift. rewrite Hfetch, He.
    eexists. split; [reflexivity |]. unfold on_exception, new_result.
    by simplify_map_eq. }
  cbv zeta. unfold first_status, dict_item in Hfails.
  split; [| split].
  - intros Hnone. rewrite Hnone in Hfails. by apply (Hfails (KeyError "DBClusters")).
  - intros Hempty. rewrite Hempty in Hfails.
    by apply (Hfails (IndexError "list index out of range")).
  - intros c rest Hsome Hstatus. rewrite Hsome in Hfails. simpl in Hfails.
    rewrite Hstatus in Hfails. by apply (Hfails (KeyError "Status")).
Qed.

Lemma unreadable_status_is_failed_witness :
  ∃ result : gmap string string,
    process_cluster scripted "orders" "stop"
      (init [AClusters (Ok {[ "DBClusters" := [] ]}); AUnit (Ok tt)])
    = (Ok result, {| world := [AUnit (Ok tt)]; calls := [CallDescribe "orders"] |})
    ∧ result !! "outcome" = Some "failed"
    ∧ result !! "message" = Some "list index out of range"
    ∧ result !! "status" = Some EmptyString.
Proof.
  refine (proj1 (proj2 (unreadable_status_is_failed scripted "orders" "stop"
                          (init [AClusters (Ok {[ "DBClusters" := [] ]}); AUnit (Ok tt)])
                          _ {[ "DBClusters" := [] ]} eq_refl)) eq_refl).
Defined.

(** ** The whole run: what the handler calls, and how often *)

Section RunShape.

Context {W : Type} (R : Remote W).

Lemma adds_ret {A : Type} (P : call → Prop) (a : A) : adds P (@ret W A a).
Proof. intros st. exists []. simpl. by rewrite app_nil_r. Qed.

Lemma adds_lift {A : Type} (P : call → Prop) (r : result A) : adds P (@lift W A r).
Proof. intros st. exists []. simpl. by rewrite app_nil_r. Qed.

Lemma adds_remote {A : Type} (P : call → Prop) (c : call) (op : W -> result A * W) :
  P c → adds P (remote c op).
Proof.
  intros Hc st. exists [c]. split; [apply remote_calls |].
  by apply List.Forall_cons.
Qed.

Lemma adds_bind {A B : Type} (P : call → Prop) (m : M W A) (k : A -> M W B) :
  adds P m → (∀ a, adds P (k a)) → adds P (bind m k).
Proof.
  intros Hm Hk st. unfold bind. destruct (Hm st) as (t1 & H1 & F1).
  destruct (m st) as [[a | e] st1]; simpl in H1.
  - destruct (Hk a st1) as (t2 & H2 & F2). exists (t1 ++ t2).
    split; [log_eq | by apply Forall_app].
  - by exists t1.
Qed.

Lemma adds_try_except {A : Type} (P : call → Prop) (m : M W A) (h : exn -> M W A) :
  adds P m → (∀ e, adds P (h e)) → adds P (try_except m h).
Proof.
  intros Hm Hh st. unfold try_except. destruct (Hm st) as (t1 & H1 & F1).
  destruct (m st) as [[a | e] st1]; simpl in H1.
  - by exists t1.
  - destruct (Hh e st1) as (t2 & H2 & F2). exists (t1 ++ t2).
    split; [log_eq | by apply Forall_app].
Qed.

Lemma harmless_list_tags arn : harmless (CallListTags arn).
Proof. right; right. by exists arn. Qed.

Lemma adds_has_schedule_tag cluster_arn tag_key :
  adds harmless (has_schedule_tag R cluster_arn tag_key).
Proof.
  unfold has_schedule_tag, list_tags.
  apply adds_try_except; [| intros; apply adds_ret].
  apply adds_bind; [apply adds_remote, harmless_list_tags | intros response].
  apply adds_bind; intros; apply adds_lift.
Qed.

Lemma adds_select_eligible tag_key all_clusters :
  ∀ eligible, adds harmless (select_eligible R tag_key all_clusters eligible).
Proof.
  induction all_clusters as [| c rest IH]; intros eligible; cbn [select_eligible].
  - apply adds_ret.
  - apply adds_bind; [apply adds_lift | intros []]; cbn [negb]; [| apply IH].
    apply adds_bind; [apply adds_lift | intros arn].
    apply adds_bind; [apply adds_has_schedule_tag | intros []]; cbn [negb];
      [| apply IH].
    apply adds_bind; [apply adds_lift | intros cluster_id; apply IH].
Qed.

Lemma adds_discover : adds harmless (discover R).
Proof.
  unfold discover, pages.
  apply adds_bind; [apply adds_remote; right; by left | intros; apply adds_lift].
Qed.

Lemma adds_client : adds harmless (client R).
Proof. apply adds_remote. by left. Qed.

Lemma has_schedule_tag_calls cluster_arn tag_key st :
  calls (snd (has_schedule_tag R cluster_arn tag_key st))
  = calls st ++ [CallListTags cluster_arn].
Proof.
  unfold has_schedule_tag, try_except, bind, lift, ret.
  pose proof (remote_calls (CallListTags cluster_arn)
                (list_tags_for_resource R cluster_arn) st) as Hc.
  fold (list_tags R cluster_arn) in Hc.
  destruct (list_tags R cluster_arn st) as [[response | e] st1]; simpl in Hc; [| done].
  destruct (dict_item response "TagList") as [tags | e]; [| done].
  by destruct (any_key_is tags tag_key).
Qed.

Lemma select_eligible_lookups tag_key all_clusters :
  ∀ eligible st selected st',
    select_eligible R tag_key all_clusters eligible st = (Ok selected, st') →
    calls st' = calls st ++ tag_lookups all_clusters.
Proof.
  induction all_clusters as [| c rest IH]; intros eligible st selected st' Hrun.
  - injection Hrun as <- <-. simpl. by rewrite app_nil_r.
  - cbn [select_eligible] in Hrun. unfold bind, lift, dict_item in Hrun.
    cbn [tag_lookups].
    destruct (is_stoppable_cluster c) as [[] | e]; cbn [negb] in Hrun; [| | done].
    + destruct (c !! "DBClusterArn") as [arn |]; [| done].
      pose proof (has_schedule_tag_calls arn tag_key st) as Htag.
      destruct (has_schedule_tag R arn tag_key st) as [[[] | e] st1];
        cbn [negb] in Hrun; simpl in Htag; [| | done].
      * destruct (c !! "DBClusterIdentifier") as [cluster_id |]; [| done].
        rewrite (IH _ _ _ _ Hrun), Htag, <- app_assoc. reflexivity.
      * rewrite (IH _ _ _ _ Hrun), Htag, <- app_assoc. reflexivity.
    + destruct (c !! "DBClusterArn"); by apply (IH _ _ _ _ Hrun).
Qed.

Lemma invocations_app l1 l2 :
  invocations (l1 ++ l2) = (invocations l1 + invocations l2)%nat.
Proof. induction l1 as [| c l1 IH]; simpl; [done | rewrite IH; lia]. Qed.

Lemma harmless_log l (action : string) (ids : list string) :
  Forall harmless l → Forall (touches action ids) l ∧ invocations l = 0%nat.
Proof.
  induction 1 as [| c l Hc _ [IH1 IH2]]; [done |].
  destruct Hc as [-> | [-> | [arn ->]]]; simpl; by split; [constructor |].
Qed.

Lemma touches_more action ids ids' c :
  (∀ cluster_id, cluster_id ∈ ids → cluster_id ∈ ids') →
  touches action ids c → touches action ids' c.
Proof. intros Hsub. destruct c; simpl; try done; intros [? ?]; auto. Qed.

Lemma retry_log_touches action cluster_id ids tail :
  retry_log action cluster_id tail →
  cluster_id ∈ ids →
  Forall (touches action ids) (CallDescribe cluster_id :: tail).
Proof.
  intros Hshape Hin.
  destruct (retry_log_bounds action cluster_id tail Hshape) as (_ & _ & Halphabet).
  apply List.Forall_cons; [done |].
  eapply Forall_impl; [exact Halphabet |].
  intros c [-> | [-> | [-> | ->]]]; try done.
  unfold invocation. by destruct (String.eqb action ACTION_START) eqn:Ha; simpl;
    unfold invocation; rewrite Ha.
Qed.

(** The processing loop: where the identifiers go, in which order, and
    what is called for them. *)
Lemma process_eligible_log action eligible :
  ∀ processed skipped failed st,
    ∃ report st' processed' skipped' failed' tail,
      process_eligible R action eligible processed skipped failed st = (Ok report, st')
      ∧ ProcessedClusters report = processed ++ processed'
      ∧ SkippedClusters report = skipped ++ skipped'
      ∧ FailedClusters report = failed ++ failed'
      ∧ processed' `sublist_of` eligible
      ∧ skipped' `sublist_of` eligible
      ∧ failed' `sublist_of` eligible
      ∧ calls st' = calls st ++ tail
      ∧ Forall (touches action eligible) tail
      ∧ (length processed' ≤ invocations tail
         ≤ 3 * (length processed' + length failed'))%nat.
Proof.
  induction eligible as [| cluster_id rest IH]; intros processed skipped failed st.
  - exists {| ProcessedClusters := processed; SkippedClusters := skipped;
              FailedClusters := failed |}, st, [], [], [], [].
    simpl. rewrite !app_nil_r. repeat split; try done; lia.
  - destruct (process_cluster_log R cluster_id action st)
      as (result & st1 & outcome & t1 & Hrun & Houtcome & Hmessage & Hcalls & Hcases).
    rewrite (process_eligible_turn R _ _ _ _ _ _ _ _ _ _ Hrun Houtcome Hmessage).
    assert (Hhead : Forall (touches action (cluster_id :: rest))
                      (CallDescribe cluster_id :: t1)
                    ∧ (invocations t1 ≤ 3)%nat
                    ∧ (outcome = "processed" → 1 ≤ invocations t1)%nat
                    ∧ (outcome = "skipped" → invocations t1 = 0%nat)).
    { destruct Hcases as [[-> Hout] | [Hshape Hout]].
      - split; [by repeat constructor |]. simpl. split; [lia |].
        split; [intros -> | done]. destruct Hout as [H | H]; discriminate H.
      - split; [apply retry_log_touches; [done | apply list_elem_of_here] |].
        destruct (retry_log_bounds action cluster_id t1 Hshape) as (Hinv & _ & _).
        split; [lia |]. split; [lia |].
        intros ->. destruct Hout as [H | H]; discriminate H. }
    destruct Hhead as (Htouch & Hmax & Hmin & Hnone).
    assert (Hrest : ∀ tail, Forall (touches action rest) tail →
                            Forall (touches action (cluster_id :: rest)) tail).
    { intros tail Htail. eapply Forall_impl; [exact Htail |].
      intros c. apply touches_more. intros id. apply list_elem_of_further. }
    destruct (String.eqb_spec outcome "processed") as [-> | Hnot_processed];
      [| destruct (String.eqb_spec outcome "skipped") as [-> | Hnot_skipped]].
    + destruct (IH (processed ++ [cluster_id]) skipped failed st1)
        as (report & st' & p' & s' & f' & tail & Heq & Hp & Hs & Hf
            & Sp & Ss & Sf & Ht & Htail & Hcount).
      exists report, st', (cluster_id :: p'), s', f', (CallDescribe cluster_id :: t1 ++ tail).
      rewrite Hp, <- app_assoc.
      split; [done |]. split; [done |]. split; [done |]. split; [done |].
      split; [by apply sublist_skip |]. split; [by apply sublist_cons |].
      split; [by apply sublist_cons |].
      split; [rewrite Ht, Hcalls, <- app_assoc; reflexivity |].
      split; [rewrite app_comm_cons; apply Forall_app; auto |].
      simpl. rewrite invocations_app. specialize (Hmin eq_refl). lia.
    + destruct (IH processed (skipped ++ [cluster_id]) failed st1)
        as (report & st' & p' & s' & f' & tail & Heq & Hp & Hs & Hf
            & Sp & Ss & Sf & Ht & Htail & Hcount).
      exists report, st', p', (cluster_id :: s'), f', (CallDescribe cluster_id :: t1 ++ tail).
      rewrite Hs, <- app_assoc.
      split; [done |]. split; [done |]. split; [done |]. split; [done |].
      split; [by apply sublist_cons |]. split; [by apply sublist_skip |].
      split; [by apply sublist_cons |].
      split; [rewrite Ht, Hcalls, <- app_assoc; reflexivity |].
      split; [rewrite app_comm_cons; apply Forall_app; auto |].
      simpl. rewrite invocations_app. specialize (Hnone eq_refl). lia.
    + destruct (IH processed skipped (failed ++ [cluster_id]) st1)
        as (report & st' & p' & s' & f' & tail & Heq & Hp & Hs & Hf
            & Sp & Ss & Sf & Ht & Htail & Hcount).
      exists report, st', p', s', (cluster_id :: f'), (CallDescribe cluster_id :: t1 ++ tail).
      rewrite Hf, <- app_assoc.
      split; [done |]. split; [done |]. split; [done |]. split; [done |].
      split; [by apply sublist_cons |]. split; [by apply sublist_cons |].
      split; [by apply sublist_skip |].
      split; [rewrite Ht, Hcalls, <- app_assoc; reflexivity |].
      split; [rewrite app_comm_cons; apply Forall_app; auto |].
      simpl. rewrite invocations_app. lia.
Qed.

End RunShape.

Section RunFacts.

Context {W : Type} (R : Remote W).

Lemma discover_calls st :
  calls (snd (discover R st)) = calls st ++ [CallPaginate].
Proof.
  unfold discover, bind, lift.
  pose proof (remote_calls CallPaginate (paginate R) st) as Hc. fold (pages R) in Hc.
  by destruct (pages R st) as [[ps | e] st1].
Qed.

Lemma client_calls st : calls (snd (client R st)) = calls st ++ [CallClient].
Proof. apply remote_calls. Qed.

Lemma extend_pages_concat ps :
  ∀ css all_clusters,
    Forall2 (λ (page : gmap string (list cluster)) cs, page !! "DBClusters" = Some cs)
      ps css →
    extend_pages all_clusters ps = Ok (all_clusters ++ concat css).
Proof.
  induction ps as [| page ps IH]; intros css all_clusters Hpages.
  - apply Forall2_nil_inv_l in Hpages as ->. simpl. by rewrite app_nil_r.
  - apply Forall2_cons_inv_l in Hpages as (cs & css' & Hpage & Hrest & ->).
    simpl. unfold dict_item. rewrite Hpage, (IH css' _ Hrest), <- app_assoc.
    reflexivity.
Qed.

Lemma extend_pages_missing ps :
  ∀ all_clusters,
    Exists (λ page : gmap string (list cluster), page !! "DBClusters" = None) ps →
    extend_pages all_clusters ps = Raise (KeyError "DBClusters").
Proof.
  induction ps as [| page ps IH]; intros all_clusters Hmissing.
  - by apply Exists_nil in Hmissing.
  - simpl. unfold dict_item.
    destruct (page !! "DBClusters") as [cs |] eqn:Hpage; [| done].
    apply IH. apply Exists_cons in Hmissing as [H | H]; [congruence | done].
Qed.

(** The log of a run that returns: a harmless head (client, discovery, tag
    lookups) and the log of the processing loop. *)
Lemma handler_log event st report st' :
  handler R event st = (Ok report, st') →
  ∃ all_clusters eligible st_d st_e head tail,
    discover R (snd (client R st)) = (Ok all_clusters, st_d)
    ∧ select_eligible R (requested_tag_key event) all_clusters [] st_d
      = (Ok eligible, st_e)
    ∧ calls st_e = calls st ++ head
    ∧ head = CallClient :: CallPaginate :: tag_lookups all_clusters
    ∧ calls st' = calls st_e ++ tail
    ∧ Forall (touches (requested_action event) eligible) tail
    ∧ ProcessedClusters report `sublist_of` eligible
    ∧ SkippedClusters report `sublist_of` eligible
    ∧ FailedClusters report `sublist_of` eligible
    ∧ (length (ProcessedClusters report) ≤ invocations tail
       ≤ 3 * (length (ProcessedClusters report) + length (FailedClusters report)))%nat
    ∧ listed report ≡ₚ eligible
    ∧ valid_action (requested_action event).
Proof.
  intros Hrun.
  assert (Hperm : ∀ eligible st_e,
            process_eligible R (requested_action event) eligible [] [] [] st_e
            = (Ok report, st') → listed report ≡ₚ eligible).
  { intros eligible st_e Hprocess.
    destruct (process_eligible_spec R (requested_action event) eligible [] [] [] st_e)
      as (r & s & p' & s' & f' & Heq & Hp & Hs & Hf & Hperm).
    rewrite Hprocess in Heq. injection Heq as <- <-.
    unfold listed. by rewrite Hp, Hs, Hf. }
  destruct (handler_returns R event st report st' Hrun)
    as (Hvalid & st_c & all_clusters & st_d & eligible & st_e
        & Hclient & Hdiscover & Hselect & Hprocess).
  exists all_clusters, eligible, st_d, st_e,
    (CallClient :: CallPaginate :: tag_lookups all_clusters).
  specialize (Hperm eligible st_e Hprocess).
  destruct (process_eligible_log R (requested_action event) eligible [] [] [] st_e)
    as (report' & st'' & p' & s' & f' & tail & Heq & Hp & Hs & Hf
        & Sp & Ss & Sf & Ht & Htail & Hcount).
  rewrite Hprocess in Heq. injection Heq as <- <-.
  simpl in Hp, Hs, Hf. rewrite Hp, Hs, Hf.
  exists tail.
  split; [by rewrite Hclient |]. split; [done |].
  split; [| done].
  rewrite (select_eligible_lookups R _ _ _ _ _ _ Hselect).
  pose proof (discover_calls st_c) as Hd. rewrite Hdiscover in Hd. simpl in Hd.
  pose proof (client_calls st) as Hc. rewrite Hclient in Hc. simpl in Hc.
  rewrite Hd, Hc, <- !app_assoc. reflexivity.
Qed.

Lemma tag_lookups_harmless all_clusters : Forall harmless (tag_lookups all_clusters).
Proof.
  induction all_clusters as [| c rest IH]; simpl; [constructor |].
  repeat case_match; try done. constructor; [apply harmless_list_tags | done].
Qed.

Lemma head_harmless all_clusters :
  Forall harmless (CallClient :: CallPaginate :: tag_lookups all_clusters).
Proof.
  apply List.Forall_cons; [by left |].
  apply List.Forall_cons; [right; by left |].
  apply tag_lookups_harmless.
Qed.

End RunFacts.

(** X12. In a run of [handler] that returns, every start or stop call is the
    operation that was asked for, on a cluster that the report lists: a
    Start run never stops a cluster, a Stop run never starts one, and no
    cluster outside the report is started or stopped. *)
Theorem handler_invokes_only_listed {W : Type} (R : Remote W)
    (event : gmap string string) (st st' : state W) (report : report)
    (Hrun : handler R event st = (Ok report, st')) :
  ∃ tail,
    calls st' = calls st ++ tail
    ∧ (∀ cluster_id, CallStart cluster_id ∈ tail →
         requested_action event = ACTION_START ∧ cluster_id ∈ listed report)
    ∧ (∀ cluster_id, CallStop cluster_id ∈ tail →
         requested_action event = ACTION_STOP ∧ cluster_id ∈ listed report).
Proof.
  destruct (handler_log R event st report st' Hrun)
    as (all_clusters & eligible & st_d & st_e & head & tail & _ & _ & Hhead & Hshape
        & Htail & Htouch & _ & _ & _ & _ & Hperm & Hvalid).
  exists (head ++ tail). split; [rewrite Htail, Hhead, <- app_assoc; reflexivity |].
  assert (Hharmless : Forall harmless head).
  { rewrite Hshape. apply head_harmless. }
  destruct (harmless_log head (requested_action event) eligible Hharmless)
    as [Hhead_touch _].
  pose proof (proj2 (Forall_app _ _ _) (conj Hhead_touch Htouch)) as Hall.
  rewrite Forall_forall in Hall.
  split; intros cluster_id Hin; apply Hall in Hin as [Hop Helig]; simpl in *;
    (split; [| by rewrite Hperm]); unfold invocation in Hop.
  - destruct (String.eqb_spec (requested_action event) ACTION_START); [done |].
    discriminate Hop.
  - destruct (String.eqb_spec (requested_action event) ACTION_START) as [| Hne];
      [discriminate Hop |].
    by destruct Hvalid.
Qed.

Lemma handler_invokes_only_listed_witness :
  ∃ tail,
    calls (snd (handler scripted stop_event (init first_fetch_fails))) = [] ++ tail
    ∧ (∀ cluster_id, CallStart cluster_id ∈ tail →
         requested_action stop_event = ACTION_START
         ∧ cluster_id ∈ ["batch"; "orders"])
    ∧ (∀ cluster_id, CallStop cluster_id ∈ tail →
         requested_action stop_event = ACTION_STOP
         ∧ cluster_id ∈ ["batch"; "orders"]).
Proof.
  exact (handler_invokes_only_listed scripted stop_event (init first_fetch_fails)
           (snd (handler scripted stop_event (init first_fetch_fails)))
           {| ProcessedClusters := ["batch"]; SkippedClusters := [];
              FailedClusters := ["orders"] |} eq_refl).
Defined.

(** X13. In a run of [handler] that returns, the number of start/stop
    invocations is at least the number of processed clusters and at most
    three times the number of processed and failed clusters: a skipped
    cluster costs no invocation, any other at most three. *)
Theorem handler_invocations_bounded {W : Type} (R : Remote W)
    (event : gmap string string) (st st' : state W) (report : report)
    (Hrun : handler R event st = (Ok report, st')) :
  ∃ tail,
    calls st' = calls st ++ tail
    ∧ (length (ProcessedClusters report) ≤ invocations tail
       ≤ 3 * (length (ProcessedClusters report) + length (FailedClusters report)))%nat.
Proof.
  destruct (handler_log R event st report st' Hrun)
    as (all_clusters & eligible & st_d & st_e & head & tail & _ & _ & Hhead & Hshape
        & Htail & _ & _ & _ & _ & Hcount & _).
  exists (head ++ tail). split; [rewrite Htail, Hhead, <- app_assoc; reflexivity |].
  assert (Hharmless : Forall harmless head).
  { rewrite Hshape. apply head_harmless. }
  destruct (harmless_log head (requested_action event) eligible Hharmless) as [_ Hzero].
  rewrite invocations_app, Hzero. simpl. exact Hcount.
Qed.

Lemma handler_invocations_bounded_witness :
  ∃ tail,
    calls (snd (handler scripted stop_event (init first_fetch_fails))) = [] ++ tail
    ∧ (1 ≤ invocations tail ≤ 3 * (1 + 1))%nat.
Proof.
  exact (handler_invocations_bounded scripted stop_event (init first_fetch_fails)
           (snd (handler scripted stop_event (init first_fetch_fails)))
           {| ProcessedClusters := ["batch"]; SkippedClusters := [];
              FailedClusters := ["orders"] |} eq_refl).
Defined.

(** X14. The report keeps the order of discovery: the eligible identifiers
    are taken from the discovered descriptors in their order, and each of
    the three lists of the report is taken from the eligible identifiers in
    their order. *)
Theorem report_keeps_discovery_order {W : Type} (R : Remote W)
    (event : gmap string string) (st st' : state W) (report : report)
    (Hrun : handler R event st = (Ok report, st')) :
  ∃ all_clusters eligible st_d st_e,
    discover R (snd (client R st)) = (Ok all_clusters, st_d)
    ∧ select_eligible R (requested_tag_key event) all_clusters [] st_d
      = (Ok eligible, st_e)
    ∧ (Some <$> eligible) `sublist_of` identifiers all_clusters
    ∧ ProcessedClusters report `sublist_of` eligible
    ∧ SkippedClusters report `sublist_of` eligible
    ∧ FailedClusters report `sublist_of` eligible.
Proof.
  destruct (handler_log R event st report st' Hrun)
    as (all_clusters & eligible & st_d & st_e & head & tail & Hdiscover & Hselect & _ & _
        & _ & _ & Sp & Ss & Sf & _).
  exists all_clusters, eligible, st_d, st_e.
  split; [done |]. split; [done |]. split; [| done].
  by destruct (select_eligible_spec R _ _ _ _ _ _ Hselect) as (added & -> & Hsub & _).
Qed.

Lemma report_keeps_discovery_order_witness :
  ∃ eligible,
    ["batch"] `sublist_of` eligible ∧ ["orders"] `sublist_of` eligible.
Proof.
  destruct (report_keeps_discovery_order scripted stop_event (init first_fetch_fails)
              (snd (handler scripted stop_event (init first_fetch_fails)))
              {| ProcessedClusters := ["batch"]; SkippedClusters := [];
                 FailedClusters := ["orders"] |} eq_refl)
    as (all_clusters & eligible & st_d & st_e & _ & _ & _ & Sp & _ & Sf).
  exists eligible. exact (conj Sp Sf).
Defined.

(** X15. A selection that returns has made exactly one tag lookup for each
    descriptor that passes [is_stoppable_cluster], on its ARN and in the
    order of discovery, and no other call: a descriptor that the filter
    rejects costs no remote call. *)
Theorem selection_looks_up_survivors_only {W : Type} (R : Remote W)
    (tag_key : string) (all_clusters : list cluster) (eligible selected : list string)
    (st st' : state W)
    (Hrun : select_eligible R tag_key all_clusters eligible st = (Ok selected, st')) :
  calls st' = calls st ++ tag_lookups all_clusters.
Proof. exact (select_eligible_lookups R _ _ _ _ _ _ Hrun). Qed.

Lemma selection_looks_up_survivors_only_witness :
  calls (snd (select_eligible scripted "Schedule"
                [serverless_cluster; aurora_cluster; multi_az_cluster; untagged_cluster] []
                (init [schedule_tag; no_tags])))
  = [] ++ [CallListTags "arn:orders"; CallListTags "arn:batch"].
Proof.
  exact (selection_looks_up_survivors_only scripted "Schedule"
           [serverless_cluster; aurora_cluster; multi_az_cluster; untagged_cluster] []
           ["orders"] (init [schedule_tag; no_tags]) _ eq_refl).
Defined.

(** X16. A run of [handler] that raises has started and stopped nothing and
    fetched no status: up to the exception it has called only the client
    constructor, the paginator and tag lookups. *)
Theorem aborted_run_changes_nothing {W : Type} (R : Remote W)
    (event : gmap string string) (st st' : state W) (e : exn)
    (Hrun : handler R event st = (Raise e, st')) :
  ∃ tail, calls st' = calls st ++ tail ∧ Forall harmless tail.
Proof.
  destruct (valid_action_dec (requested_action event)) as [Hvalid | Hinvalid].
  - rewrite (handler_valid R event Hvalid) in Hrun. unfold bind in Hrun.
    destruct (adds_client R st) as (t1 & H1 & F1).
    destruct (client R st) as [[[] | e1] st_c]; simpl in H1;
      [| injection Hrun as <- <-; by exists t1].
    destruct (adds_discover R st_c) as (t2 & H2 & F2).
    destruct (discover R st_c) as [[all_clusters | e2] st_d]; simpl in H2;
      [| injection Hrun as <- <-; exists (t1 ++ t2);
         split; [log_eq | by apply Forall_app]].
    destruct (adds_select_eligible R (requested_tag_key event) all_clusters [] st_d)
      as (t3 & H3 & F3).
    destruct (select_eligible R (requested_tag_key event) all_clusters [] st_d)
      as [[eligible | e3] st_e]; simpl in H3;
      [| injection Hrun as <- <-; exists (t1 ++ t2 ++ t3);
         split; [log_eq | by rewrite !Forall_app]].
    destruct (process_eligible_spec R (requested_action event) eligible [] [] [] st_e)
      as (r & s & _ & _ & _ & Heq & _).
    rewrite Heq in Hrun. discriminate Hrun.
  - rewrite (handler_invalid R event st Hinvalid) in Hrun. injection Hrun as <- <-.
    exists []. by rewrite app_nil_r.
Qed.

Lemma aborted_run_changes_nothing_witness :
  ∃ tail,
    [CallClient; CallPaginate; CallListTags "arn:orders"] = [] ++ tail
    ∧ Forall harmless tail.
Proof.
  exact (aborted_run_changes_nothing scripted stop_event (init nameless_in_inventory)
           {| world := [in_status "available"; AUnit (Ok tt)];
              calls := [CallClient; CallPaginate; CallListTags "arn:orders"] |}
           (KeyError "DBClusterIdentifier") eq_refl).
Defined.

(** X17. On a valid Action a fault of the client constructor or of the
    pagination, and a page without the key DBClusters, end the run: the
    handler raises that fault (the [KeyError] for the page) and has called
    nothing beyond the client constructor and the paginator; no tag is
    looked up and no cluster is touched. *)
Theorem discovery_fault_is_fatal {W : Type} (R : Remote W)
    (event : gmap string string) (st : state W)
    (Hvalid : valid_action (requested_action event)) :
  (∀ e st_c,
     client R st = (Raise e, st_c) →
     handler R event st = (Raise e, st_c) ∧ calls st_c = calls st ++ [CallClient])
  ∧ (∀ st_c e st_d,
       client R st = (Ok tt, st_c) →
       pages R st_c = (Raise e, st_d) →
       handler R event st = (Raise e, st_d)
       ∧ calls st_d = calls st ++ [CallClient; CallPaginate])
  ∧ (∀ st_c ps st_d,
       client R st = (Ok tt, st_c) →
       pages R st_c = (Ok ps, st_d) →
       Exists (λ page : gmap string (list cluster), page !! "DBClusters" = None) ps →
       handler R event st = (Raise (KeyError "DBClusters"), st_d)
       ∧ calls st_d = calls st ++ [CallClient; CallPaginate]).
Proof.
  rewrite (handler_valid R event Hvalid).
  split; [| split].
  - intros e st_c Hclient. unfold bind. rewrite Hclient. split; [done |].
    pose proof (client_calls R st) as Hc. by rewrite Hclient in Hc.
  - intros st_c e st_d Hclient Hpages. unfold bind, discover. rewrite Hclient.
    unfold bind. rewrite Hpages. split; [done |].
    pose proof (client_calls R st) as Hc. rewrite Hclient in Hc.
    pose proof (remote_calls CallPaginate (paginate R) st_c) as Hp.
    fold (pages R) in Hp. rewrite Hpages in Hp. simpl in Hc, Hp.
    rewrite Hp, Hc, <- app_assoc. reflexivity.
  - intros st_c ps st_d Hclient Hpages Hmissing. unfold bind, discover. rewrite Hclient.
    unfold bind, lift. rewrite Hpages, (extend_pages_missing ps [] Hmissing).
    split; [done |].
    pose proof (client_calls R st) as Hc. rewrite Hclient in Hc.
    pose proof (remote_calls CallPaginate (paginate R) st_c) as Hp.
    fold (pages R) in Hp. rewrite Hpages in Hp. simpl in Hc, Hp.
    rewrite Hp, Hc, <- app_assoc. reflexivity.
Qed.

Lemma discovery_fault_is_fatal_witness :
  handler scripted stop_event (init discovery_denied)
  = (Raise access_denied,
     {| world := [schedule_tag]; calls := [CallClient; CallPaginate] |}).
Proof.
  refine (proj1 (proj1 (proj2 (discovery_fault_is_fatal scripted stop_event
                                 (init discovery_denied) _))
                   {| world := [APages (Raise access_denied); schedule_tag];
                      calls := [CallClient] |}
                   access_denied
                   {| world := [schedule_tag]; calls := [CallClient; CallPaginate] |}
                   eq_refl eq_refl)).
  by right.
Defined.

(** X18. Discovery consumes every page: when each page has the key
    DBClusters, [discover] returns the clusters of all pages, page after
    page in order, after the one pagination call. *)
Theorem discover_concatenates_pages {W : Type} (R : Remote W) (st st1 : state W)
    (ps : list (gmap string (list cluster))) (css : list (list cluster))
    (Hpages : pages R st = (Ok ps, st1))
    (Hkeys : Forall2 (λ (page : gmap string (list cluster)) cs,
                        page !! "DBClusters" = Some cs) ps css) :
  discover R st = (Ok (concat css), st1)
  ∧ calls st1 = calls st ++ [CallPaginate].
Proof.
  split.
  - unfold discover, bind, lift. by rewrite Hpages, (extend_pages_concat ps css [] Hkeys).
  - pose proof (remote_calls CallPaginate (paginate R) st) as Hp.
    fold (pages R) in Hp. by rewrite Hpages in Hp.
Qed.

Lemma discover_concatenates_pages_witness :
  discover scripted (init [APages (Ok two_pages)])
  = (Ok [serverless_cluster; aurora_cluster; untagged_cluster],
     {| world := []; calls := [CallPaginate] |}).
Proof.
  refine (proj1 (discover_concatenates_pages scripted (init [APages (Ok two_pages)])
                   {| world := []; calls := [CallPaginate] |} two_pages
                   [[serverless_cluster]; [aurora_cluster; untagged_cluster]]
                   eq_refl _)).
  repeat constructor.
Defined.

(** X19. When no discovered cluster is selected (none discovered, or all
    rejected by the filter or the tag gate), [handler] returns the report
    with three empty lists, having called only the client constructor, the
    paginator and the tag lookups of the clusters that passed the filter. *)
Theorem nothing_eligible_empty_report {W : Type} (R : Remote W)
    (event : gmap string string) (st st_c st_d st_e : state W)
    (all_clusters : list cluster)
    (Hvalid : valid_action (requested_action event))
    (Hclient : client R st = (Ok tt, st_c))
    (Hdiscover : discover R st_c = (Ok all_clusters, st_d))
    (Hselect : select_eligible R (requested_tag_key event) all_clusters [] st_d
               = (Ok [], st_e)) :
  handler R event st = (Ok empty_report, st_e)
  ∧ calls st_e = calls st ++ CallClient :: CallPaginate :: tag_lookups all_clusters.
Proof.
  split.
  - rewrite (handler_valid R event Hvalid). unfold bind.
    by rewrite Hclient, Hdiscover, Hselect.
  - rewrite (select_eligible_lookups R _ _ _ _ _ _ Hselect).
    pose proof (discover_calls R st_c) as Hd. rewrite Hdiscover in Hd.
    pose proof (client_calls R st) as Hc. rewrite Hclient in Hc. simpl in Hc, Hd.
    rewrite Hd, Hc, <- !app_assoc. reflexivity.
Qed.

Lemma nothing_eligible_empty_report_witness :
  handler scripted stop_event (init no_survivors)
  = (Ok empty_report,
     {| world := [in_status "available"];
        calls := [CallClient; CallPaginate; CallListTags "arn:batch"] |}).
Proof.
  refine (proj1 (nothing_eligible_empty_report scripted stop_event (init no_survivors)
                   {| world := [one_page [serverless_cluster; untagged_cluster]; no_tags;
                                in_status "available"];
                      calls := [CallClient] |}
                   {| world := [no_tags; in_status "available"];
                      calls := [CallClient; CallPaginate] |}
                   {| world := [in_status "available"];
                      calls := [CallClient; CallPaginate; CallListTags "arn:batch"] |}
                   [serverless_cluster; untagged_cluster]
                   _ eq_refl eq_refl eq_refl)).
  by right.
Defined.

(** X20. A lost race is a failed cluster after one invocation: when the
    guard lets the fetched status through and the invocation raises
    [InvalidDBClusterStateFault], [process_cluster] returns outcome "failed"
    with the text of the fault as message and the fetched status kept as
    status, having called the status fetch and the one invocation only. *)
Theorem lost_race_is_failed {W : Type} (R : Remote W)
    (cluster_id action current_status msg : string) (st st1 st2 : state W)
    (Hgo : (action = ACTION_START ∧ current_status = STATUS_STOPPED)
           ∨ (action = ACTION_STOP ∧ current_status = STATUS_AVAILABLE))
    (Hfetch : fetch R cluster_id st = (Ok current_status, st1))
    (Hfault : api_call R action cluster_id st1
              = (Raise (InvalidDBClusterStateFault msg), st2)) :
  ∃ result : gmap string string,
    process_cluster R cluster_id action st = (Ok result, st2)
    ∧ result !! "outcome" = Some "failed"
    ∧ result !! "message" = Some msg
    ∧ result !! "status" = Some current_status
    ∧ calls st2 = calls st ++ [CallDescribe cluster_id; invocation action cluster_id].
Proof.
  assert (Hperform : perform_action_with_retry R cluster_id action st1
                     = (Raise (InvalidDBClusterStateFault msg), st2)).
  { unfold perform_action_with_retry. rewrite range_attempts.
    apply retry_loop_reraises; [by apply attempt_invocation_raises | done]. }
  assert (Hguard : guard action current_status
                     (<[ "status" := current_status ]> (new_result cluster_id)) = None).
  { by destruct Hgo as [[-> ->] | [-> ->]]. }
  unfold process_cluster. fold (fetch R cluster_id). rewrite Hfetch. cbv zeta.
  rewrite Hguard, Hperform.
  eexists. split; [reflexivity |]. unfold on_exception.
  split; [by simplify_map_eq |]. split; [by simplify_map_eq |].
  split; [by simplify_map_eq |].
  pose proof (api_call_calls R action cluster_id st1) as H2. rewrite Hfault in H2.
  unfold fetch, bind, lift in Hfetch.
  pose proof (remote_calls (CallDescribe cluster_id)
                (describe_db_clusters R cluster_id) st) as H1.
  fold (describe R cluster_id) in H1.
  destruct (describe R cluster_id st) as [[response | e] st0]; [| done].
  injection Hfetch as _ ->. simpl in H1, H2.
  rewrite H2, H1, <- app_assoc. reflexivity.
Qed.

Lemma lost_race_is_failed_witness :
  ∃ result : gmap string string,
    process_cluster scripted "orders" "stop"
      (init [in_status "available";
             AUnit (Raise (InvalidDBClusterStateFault "cluster is stopping"))])
    = (Ok result, {| world := []; calls := [CallDescribe "orders"; CallStop "orders"] |})
    ∧ result !! "outcome" = Some "failed"
    ∧ result !! "message" = Some "cluster is stopping"
    ∧ result !! "status" = Some "available"
    ∧ [CallDescribe "orders"; CallStop "orders"]
      = [] ++ [CallDescribe "orders"; CallStop "orders"].
Proof.
  refine (lost_race_is_failed scripted "orders" "stop" "available" "cluster is stopping"
            (init [in_status "available";
                   AUnit (Raise (InvalidDBClusterStateFault "cluster is stopping"))])
            {| world := [AUnit (Raise (InvalidDBClusterStateFault "cluster is stopping"))];
               calls := [CallDescribe "orders"] |}
            {| world := []; calls := [CallDescribe "orders"; CallStop "orders"] |}
            _ eq_refl eq_refl).
  by right.
Defined.

(** X21. The straight path: when the guard lets the fetched status through,
    the invocation returns and the status read after the pause gives a
    status, [process_cluster] returns outcome "processed" with that new
    status (not the fetched one) and the message that names the action,
    after exactly: status fetch, invocation, sleep of 1, status read. *)
Theorem processed_reports_new_status {W : Type} (R : Remote W)
    (cluster_id action current_status new_status : string) (st st1 st2 st3 : state W)
    (response : gmap string (list cluster))
    (Hgo : (action = ACTION_START ∧ current_status = STATUS_STOPPED)
           ∨ (action = ACTION_STOP ∧ current_status = STATUS_AVAILABLE))
    (Hfetch : fetch R cluster_id st = (Ok current_status, st1))
    (Hinvoked : api_call R action cluster_id st1 = (Ok tt, st2))
    (Hread : describe R cluster_id (slept R 1 st2) = (Ok response, st3))
    (Hstatus : first_status response = Ok new_status) :
  ∃ result : gmap string string,
    process_cluster R cluster_id action st = (Ok result, st3)
    ∧ result !! "outcome" = Some "processed"
    ∧ result !! "status" = Some new_status
    ∧ result !! "message" = Some ("Action '" +:+ action +:+ "' initiated successfully.")
    ∧ calls st3 = calls st ++ [CallDescribe cluster_id; invocation action cluster_id;
                               CallSleep 1; CallDescribe cluster_id].
Proof.
  assert (Hperform : perform_action_with_retry R cluster_id action st1
                     = (Ok new_status, st3)).
  { unfold perform_action_with_retry. rewrite range_attempts.
    apply retry_loop_returns. unfold attempt, bind, lift, ret.
    by rewrite Hinvoked, sleep_run, Hread, Hstatus. }
  assert (Hguard : guard action current_status
                     (<[ "status" := current_status ]> (new_result cluster_id)) = None).
  { by destruct Hgo as [[-> ->] | [-> ->]]. }
  unfold process_cluster. fold (fetch R cluster_id). rewrite Hfetch. cbv zeta.
  rewrite Hguard, Hperform.
  eexists. split; [reflexivity |].
  split; [by simplify_map_eq |]. split; [by simplify_map_eq |].
  split; [by simplify_map_eq |].
  pose proof (api_call_calls R action cluster_id st1) as H2. rewrite Hinvoked in H2.
  pose proof (remote_calls (CallDescribe cluster_id)
                (describe_db_clusters R cluster_id) (slept R 1 st2)) as H3.
  fold (describe R cluster_id) in H3. rewrite Hread, slept_calls in H3.
  unfold fetch, bind, lift in Hfetch.
  pose proof (remote_calls (CallDescribe cluster_id)
                (describe_db_clusters R cluster_id) st) as H1.
  fold (describe R cluster_id) in H1.
  destruct (describe R cluster_id st) as [[response0 | e] st0]; [| done].
  injection Hfetch as _ ->. simpl in H1, H2, H3.
  rewrite H3, H2, H1, <- !app_assoc. reflexivity.
Qed.

Lemma processed_reports_new_status_witness :
  ∃ result : gmap string string,
    process_cluster scripted "orders" "start"
      (init [in_status "stopped"; AUnit (Ok tt); in_status "starting"])
    = (Ok result,
       {| world := [];
          calls := [CallDescribe "orders"; CallStart "orders"; CallSleep 1;
                    CallDescribe "orders"] |})
    ∧ result !! "outcome" = Some "processed"
    ∧ result !! "status" = Some "starting"
    ∧ result !! "message" = Some "Action 'start' initiated successfully."
    ∧ [CallDescribe "orders"; CallStart "orders"; CallSleep 1; CallDescribe "orders"]
      = [] ++ [CallDescribe "orders"; CallStart "orders"; CallSleep 1;
               CallDescribe "orders"].
Proof.
  refine (processed_reports_new_status scripted "orders" "start" "stopped" "starting"
            (init [in_status "stopped"; AUnit (Ok tt); in_status "starting"])
            {| world := [AUnit (Ok tt); in_status "starting"];
               calls := [CallDescribe "orders"] |}
            {| world := [in_status "starting"];
               calls := [CallDescribe "orders"; CallStart "orders"] |}
            {| world := [];
               calls := [CallDescribe "orders"; CallStart "orders"; CallSleep 1;
                         CallDescribe "orders"] |}
            {[ "DBClusters" := [ {[ "Status" := "starting" ]} ] ]}
            _ eq_refl eq_refl eq_refl eq_refl).
  by left.
Defined.
